(** * Kudzu context builder: the trace-to-document compaction pipeline

    A shallow embedding of [scripts/claude/kudzu-context.py]: content
    extraction, recency scoring, categorization, substring deduplication
    and the line-budgeted renderer, with the properties the specification
    states about them.

    Modelling conventions.
    - A Python [str] is a list of characters.  Characters are the 256 code
      points of Latin-1 (Stdlib's [ascii]); [str.lower], [str.strip] and
      [str.isspace] are given for that range as CPython defines them.
    - A Python [dict] is an association list in insertion order.
    - Python integers are [Z]; a Python [float] is an IEEE-754 binary64
      value ([spec_float]); [a / b] on integers is the correctly rounded
      quotient, as CPython computes it.
    - A raised exception is [None]. *)

From Stdlib Require Import Ascii String.
From Stdlib Require Import ZArith List Bool Lia Permutation Sorted.
From Stdlib Require Import Floats.SpecFloat.
Import ListNotations.

Set Implicit Arguments.

(* ------------------------------------------------------------------ *)
(** * Python strings *)
(* ------------------------------------------------------------------ *)

Module PyStr.

Definition pystr := list ascii.

(** A string literal of the source. *)
Definition lit (s : string) : pystr := list_ascii_of_string s.

Definition code (c : ascii) : N := N_of_ascii c.

(** [str.isspace] on one character: U+0009..U+000D, U+001C..U+0020,
    U+0085 and U+00A0. *)
Definition is_space (c : ascii) : bool :=
  let n := code c in
  ((9 <=? n) && (n <=? 13) || (28 <=? n) && (n <=? 32)
   || (n =? 133) || (n =? 160))%N.

(** [str.lower] on one character: A..Z and the Latin-1 capitals
    U+00C0..U+00DE (the multiplication sign U+00D7 apart) move up by 32. *)
Definition lower_char (c : ascii) : ascii :=
  let n := code c in
  if ((65 <=? n) && (n <=? 90)
      || (192 <=? n) && (n <=? 222) && negb (n =? 215))%N
  then ascii_of_N (n + 32) else c.

Definition lower (s : pystr) : pystr := map lower_char s.

Fixpoint lstrip (s : pystr) : pystr :=
  match s with
  | c :: s' => if is_space c then lstrip s' else s
  | [] => []
  end.

Definition rstrip (s : pystr) : pystr := rev (lstrip (rev s)).

(** [s.strip()] *)
Definition strip (s : pystr) : pystr := rstrip (lstrip s).

Fixpoint starts_with (p s : pystr) : bool :=
  match p, s with
  | [], _ => true
  | _ :: _, [] => false
  | a :: p', b :: s' => Ascii.eqb a b && starts_with p' s'
  end.

(** [p in s] *)
Fixpoint contains (p s : pystr) : bool :=
  starts_with p s ||
  match s with
  | [] => false
  | _ :: s' => contains p s'
  end.

(** What [p in s] means: [p] occurs in [s] as a contiguous block. *)
Definition Substring (p s : pystr) : Prop :=
  exists pre post, s = pre ++ p ++ post.

Definition newline : ascii := ascii_of_N 10.
Definition space : ascii := ascii_of_N 32.

(** [text.replace("\n", " ")] *)
Definition replace_newlines (s : pystr) : pystr :=
  map (fun c => if Ascii.eqb c newline then space else c) s.

(** [sep.join(parts)] with the separator a single character. *)
Fixpoint join (sep : ascii) (parts : list pystr) : pystr :=
  match parts with
  | [] => []
  | [p] => p
  | p :: rest => p ++ sep :: join sep rest
  end.

(** [==] on strings. *)
Definition str_eqb (a b : pystr) : bool :=
  if list_eq_dec ascii_dec a b then true else false.

(** Every character is whitespace and there is at least one:
    [str.isspace]. *)
Definition isspace (s : pystr) : bool :=
  match s with
  | [] => false
  | _ => forallb is_space s
  end.

End PyStr.

(* ------------------------------------------------------------------ *)
(** * Python numbers: integers, binary64 floats, true division *)
(* ------------------------------------------------------------------ *)

Module PyNum.
Local Open Scope Z_scope.

(** Nearest integer to [a / b] ([0 <= a], [0 < b]), ties to even. *)
Definition round_half_even (a b : Z) : Z :=
  let q := a / b in
  let r := a mod b in
  if 2 * r <? b then q
  else if b <? 2 * r then q + 1
  else if Z.even q then q else q + 1.

(** [floor (log2 (a / b))] for [0 < a] and [0 < b]. *)
Definition floor_log2_quot (a b : Z) : Z :=
  let d := Z.log2 a - Z.log2 b in
  if a * 2 ^ Z.max 0 (- d) <? b * 2 ^ Z.max 0 d then d - 1 else d.

(** [a / b] on Python integers: the binary64 value nearest to the exact
    quotient (53 bits of precision, least exponent -1074, ties to even).
    [None] is [ZeroDivisionError] or [OverflowError].  The result is
    [m * 2 ^ e]; a mantissa that rounding carries to [2 ^ 53] is left as
    it is, the value being the same. *)
Definition true_divide (a b : Z) : option spec_float :=
  if b =? 0 then None
  else
    let negate := xorb (a <? 0) (b <? 0) in
    if a =? 0 then Some (S754_zero negate)
    else
      let e := Z.max (floor_log2_quot (Z.abs a) (Z.abs b) - 52) (-1074) in
      let m := round_half_even (Z.abs a * 2 ^ Z.max 0 (- e))
                               (Z.abs b * 2 ^ Z.max 0 e) in
      if 2 ^ (1024 - e) <=? m then None
      else if m =? 0 then Some (S754_zero negate)
      else Some (S754_finite negate (Z.to_pos m) e).

(** [int(x)] on a float: truncation towards zero; [None] is the
    [OverflowError] or [ValueError] raised on an infinity or a NaN. *)
Definition int_of_float (x : spec_float) : option Z :=
  match x with
  | S754_zero _ => Some 0
  | S754_finite s m e =>
      let v := if 0 <=? e then Zpos m * 2 ^ e else Zpos m / 2 ^ (- e) in
      Some (if s then - v else v)
  | S754_infinity _ | S754_nan => None
  end.

(** The exact value of a number, for comparisons: a dyadic rational
    [m * 2 ^ e], an infinity or a NaN. *)
Inductive xval :=
  | XNan
  | XInf (neg : bool)
  | XDy (m e : Z).

Definition xval_of_float (x : spec_float) : xval :=
  match x with
  | S754_zero _ => XDy 0 0
  | S754_infinity s => XInf s
  | S754_nan => XNan
  | S754_finite s m e => XDy (if s then Zneg m else Zpos m) e
  end.

Definition dy_compare (m1 e1 m2 e2 : Z) : comparison :=
  let e := Z.min e1 e2 in
  (m1 * 2 ^ (e1 - e) ?= m2 * 2 ^ (e2 - e)).

(** [x < y]; every comparison with a NaN is false. *)
Definition xval_ltb (x y : xval) : bool :=
  match x, y with
  | XNan, _ | _, XNan => false
  | XInf true, XInf true => false
  | XInf true, _ => true
  | _, XInf true => false
  | XInf false, _ => false
  | _, XInf false => true
  | XDy m1 e1, XDy m2 e2 =>
      match dy_compare m1 e1 m2 e2 with Lt => true | _ => false end
  end.

End PyNum.

(* ------------------------------------------------------------------ *)
(** * Python values as decoded from JSON *)
(* ------------------------------------------------------------------ *)

Module PyVal.
Import PyStr PyNum.
Local Open Scope Z_scope.

#[local] Set Warnings "-register-all".
Inductive pyval :=
  | VNone
  | VBool (b : bool)
  | VInt (z : Z)
  | VFloat (x : spec_float)
  | VStr (s : pystr)
  | VList (l : list pyval)
  | VDict (d : list (pystr * pyval)).

Definition pydict := list (pystr * pyval).

(** [d.get(key, default)] *)
Definition dict_get (d : pydict) (key : pystr) (default : pyval) : pyval :=
  match find (fun kv => str_eqb (fst kv) key) d with
  | Some kv => snd kv
  | None => default
  end.

(** [key in d] *)
Definition dict_mem (d : pydict) (key : pystr) : bool :=
  existsb (fun kv => str_eqb (fst kv) key) d.

(** [d.values()] *)
Definition dict_values (d : pydict) : list pyval := map snd d.

(** Truth value of an object. *)
Definition truthy (v : pyval) : bool :=
  match v with
  | VNone => false
  | VBool b => b
  | VInt z => negb (z =? 0)
  | VFloat (S754_zero _) => false
  | VFloat _ => true
  | VStr s => match s with [] => false | _ => true end
  | VList l => match l with [] => false | _ => true end
  | VDict d => match d with [] => false | _ => true end
  end.

(** [isinstance(v, (int, float))]; [bool] is a subclass of [int]. *)
Definition is_number (v : pyval) : bool :=
  match v with
  | VBool _ | VInt _ | VFloat _ => true
  | _ => false
  end.

(** [isinstance(v, int)] and the integer it denotes. *)
Definition as_int (v : pyval) : option Z :=
  match v with
  | VBool b => Some (if b then 1 else 0)
  | VInt z => Some z
  | _ => None
  end.

Definition num_value (v : pyval) : xval :=
  match v with
  | VBool b => XDy (if b then 1 else 0) 0
  | VInt z => XDy z 0
  | VFloat x => xval_of_float x
  | _ => XNan
  end.

(** [a < b] and [a > b] on numbers. *)
Definition py_lt (a b : pyval) : bool := xval_ltb (num_value a) (num_value b).
Definition py_gt (a b : pyval) : bool := py_lt b a.

(** [max(values)] on a non-empty sequence [first :: rest]: the running
    maximum is replaced only by a strictly greater item. *)
Definition py_max (first : pyval) (rest : list pyval) : pyval :=
  fold_left (fun max_item item => if py_gt item max_item then item else max_item)
            rest first.

(** [v == s] for a string [s]. *)
Definition eq_str (v : pyval) (s : pystr) : bool :=
  match v with
  | VStr s' => str_eqb s' s
  | _ => false
  end.

End PyVal.

(* ------------------------------------------------------------------ *)
(** * The script *)
(* ------------------------------------------------------------------ *)

Module Kudzu.
Import PyStr PyNum PyVal.
Local Open Scope Z_scope.

(** [len(x)] *)
Definition len {A : Type} (l : list A) : Z := Z.of_nat (length l).

(** [l[:k]] *)
Definition slice_to {A : Type} (k : Z) (l : list A) : list A :=
  if 0 <=? k then firstn (Z.to_nat k) l
  else firstn (length l - Z.to_nat (- k)) l.

(** [sorted(l, key=key, reverse=True)] for keys compared by [ltb]: the
    stable sort into descending key order.  An item goes behind the items
    of strictly greater key and in front of the others. *)
Section Sorted.
Context {A K : Type} (ltb : K -> K -> bool) (key : A -> K).

Fixpoint insert_desc (x : A) (l : list A) : list A :=
  match l with
  | [] => [x]
  | y :: l' => if ltb (key x) (key y) then y :: insert_desc x l'
               else x :: y :: l'
  end.

Definition sorted_desc (l : list A) : list A :=
  fold_right insert_desc [] l.
End Sorted.

(** ** Configuration *)

Definition LINE_BUDGET : Z := 180.

Definition WORKFLOW_KEYWORDS : list pystr :=
  map lit ["commit"; "rsync"; "deploy"; "ssh"; "git"; "workflow";
           "build"; "make"; "docker"; "screen"; "tmux"; "script"]%string.

Definition FACT_KEYWORDS : list pystr :=
  map lit ["machine"; "repo"; "path"; "url"; "host"; "server"; "api";
           "port"; "directory"; "ip"; "address"; "endpoint"; "config"]%string.

(** ** Sections *)

(** The six section names.  [categorize_trace] returns one of them, so the
    test [section in sections] of [build_sections] always holds. *)
Inductive section :=
  | CurrentState
  | ActiveProjects
  | KeyFacts
  | Workflows
  | Learnings
  | RecentDecisions.

Definition section_name (s : section) : pystr :=
  match s with
  | CurrentState => lit "Current State"
  | ActiveProjects => lit "Active Projects"
  | KeyFacts => lit "Key Facts"
  | Workflows => lit "Workflows"
  | Learnings => lit "Learnings"
  | RecentDecisions => lit "Recent Decisions"
  end.

Definition SECTION_ORDER : list section :=
  [CurrentState; ActiveProjects; KeyFacts; Workflows; Learnings;
   RecentDecisions].

Definition section_eqb (a b : section) : bool :=
  match a, b with
  | CurrentState, CurrentState | ActiveProjects, ActiveProjects
  | KeyFacts, KeyFacts | Workflows, Workflows | Learnings, Learnings
  | RecentDecisions, RecentDecisions => true
  | _, _ => false
  end.

(** ** Trace fetching *)

Section Extraction.
(** The builtin [str()] on a decoded JSON value. *)
Variable py_str : pyval -> pystr.

(** The loop of [extract_content] over the known content fields. *)
Fixpoint probe_fields (hint : pydict) (fields : list pystr) : option pystr :=
  match fields with
  | [] => None
  | field :: rest =>
      let val := dict_get hint field VNone in
      match val with
      | VStr s => if truthy val then Some (strip s)
                  else probe_fields hint rest
      | _ => probe_fields hint rest
      end
  end.

Definition CONTENT_FIELDS : list pystr :=
  map lit ["content"; "summary"; "key_events"; "event"]%string.

Definition extract_content (trace : pydict) : pystr :=
  let hint := dict_get trace (lit "reconstruction_hint") (VDict []) in
  match hint with
  | VDict h =>
      match probe_fields h CONTENT_FIELDS with
      | Some content => content
      | None =>
          let fallback := py_str hint in
          if 200 <? len fallback then slice_to 200 fallback else fallback
      end
  | _ => if truthy hint then slice_to 200 (py_str hint) else []
  end.

End Extraction.

Definition extract_recency (trace : pydict) : pyval :=
  let ts := dict_get trace (lit "timestamp") (VDict []) in
  match ts with
  | VDict d =>
      let values := filter is_number (dict_values d) in
      match values with
      | [] => VInt 0
      | v :: vs => py_max v vs
      end
  | _ => VInt 0
  end.

(** ** Categorization *)

Definition categorize_trace (trace : pydict) (content : pystr) : section :=
  let purpose := dict_get trace (lit "purpose") (VStr []) in
  let content_lower := lower content in
  if eq_str purpose (lit "learning") || eq_str purpose (lit "discovery")
     || eq_str purpose (lit "research")
  then Learnings
  else if eq_str purpose (lit "decision") then RecentDecisions
  else if eq_str purpose (lit "session_context") then
    let hint := dict_get trace (lit "reconstruction_hint") (VDict []) in
    if match hint with
       | VDict h => truthy (dict_get h (lit "project") VNone)
       | _ => false
       end
    then ActiveProjects
    else if contains (lit "project") content_lower then ActiveProjects
    else CurrentState
  else if existsb (fun kw => contains kw content_lower) WORKFLOW_KEYWORDS
  then Workflows
  else if existsb (fun kw => contains kw content_lower) FACT_KEYWORDS
  then KeyFacts
  else CurrentState.

(** ** Deduplication *)

Section Items.
(** The recency component of an item is carried along untouched. *)
Context {R : Type}.

Definition item : Type := pystr * R.

Definition normalize (content : pystr) : pystr := lower (strip content).

(** The inner loop: is [normalized] inside a kept item? *)
Definition is_dup (normalized : pystr) (kept : list item) : bool :=
  existsb (fun existing => contains normalized (normalize (fst existing)))
          kept.

(** The outer loop over [sorted_items], threading [kept]. *)
Fixpoint dedup_loop (kept sorted_items : list item) : list item :=
  match sorted_items with
  | [] => kept
  | (content, recency) :: rest =>
      let normalized := normalize content in
      if is_dup normalized kept then dedup_loop kept rest
      else dedup_loop (kept ++ [(content, recency)]) rest
  end.

Definition deduplicate (items : list item) : list item :=
  match items with
  | [] => items
  | _ =>
      let sorted_items :=
        sorted_desc Nat.ltb (fun x : item => length (fst x)) items in
      dedup_loop [] sorted_items
  end.
End Items.

(** ** MEMORY.md generation *)

Section Build.
Variable py_str : pyval -> pystr.

Definition sections_t : Type := section -> list (@item pyval).

(** [sections[name].append(x)] *)
Definition sections_append (sections : sections_t) (name : section)
           (x : @item pyval) : sections_t :=
  fun s => if section_eqb s name then sections s ++ [x] else sections s.

(** One pass of the loop of [build_sections] over the traces. *)
Definition add_trace (sections : sections_t) (trace : pydict) : sections_t :=
  let content := extract_content py_str trace in
  if match content with [] => true | _ => false end
     || str_eqb content (lit "{}") || str_eqb content (lit "{}")
  then sections
  else
    let recency := extract_recency trace in
    let name := categorize_trace trace content in
    sections_append sections name (content, recency).

(** The first loop of [build_sections]. *)
Definition collect_sections (all_traces : list pydict) : sections_t :=
  fold_left add_trace all_traces (fun _ => []).

(** The second loop deduplicates each section and sorts it by recency,
    most recent first.  [list.sort] is stable, also with [reverse=True],
    so for recencies that [<] orders its result is the one of
    [sorted_desc].  A NaN among the recencies (the JSON decoder of Python
    accepts the literal) is neither below nor above any number: [<] is no
    order then, and where CPython's sort leaves the items depends on its
    runs and merges, which [sorted_desc] does not follow.  What is said
    below about the order of a section is said for recencies without
    NaN. *)

Definition build_sections (all_traces : list pydict) : sections_t :=
  let sections := collect_sections all_traces in
  fun s =>
    sorted_desc py_lt (fun x : @item pyval => snd x) (deduplicate (sections s)).
End Build.

(** [truncate_line(text, max_len)]; the renderer calls it with the
    default [max_len] of 120. *)
Definition truncate_line (text : pystr) (max_len : Z) : pystr :=
  let text := strip (replace_newlines text) in
  if max_len <? len text then slice_to (max_len - 3) text ++ lit "..."
  else text.

Section Render.
Context {R : Type}.

(** The result of [time.strftime('%Y-%m-%d %H:%M')]. *)
Variable now : pystr.

Definition sum_values (per_section : list (section * Z)) : Z :=
  fold_right Z.add 0 (map snd per_section).

(** [per_section.get(name, default)] *)
Definition share_get (per_section : list (section * Z)) (name : section)
           (default : Z) : Z :=
  match find (fun kv => section_eqb (fst kv) name) per_section with
  | Some kv => snd kv
  | None => default
  end.

(** [max(per_section, key=per_section.get)] below the running best entry:
    the first key of greatest share. *)
Fixpoint largest_from (best : section * Z) (l : list (section * Z)) : section :=
  match l with
  | [] => fst best
  | kv :: l' => if snd best <? snd kv then largest_from kv l'
                else largest_from best l'
  end.

(** [per_section[largest] -= 1] *)
Definition decrement (largest : section) (per_section : list (section * Z))
  : list (section * Z) :=
  map (fun kv => if section_eqb (fst kv) largest then (fst kv, snd kv - 1)
                 else kv) per_section.

(** The shrinking [while] loop, at most [fuel] rounds: while the shares
    add up to more than [available] and one of them is above 1, the
    largest loses 1. *)
Fixpoint adjust (fuel : nat) (available : Z) (per_section : list (section * Z))
  : list (section * Z) :=
  match fuel with
  | O => per_section
  | S fuel' =>
      if (available <? sum_values per_section)
         && existsb (fun kv => 1 <? snd kv) per_section
      then
        match per_section with
        | [] => per_section
        | kv :: rest =>
            let largest := largest_from kv rest in
            adjust fuel' available (decrement largest per_section)
        end
      else per_section
  end.

(** [max(1, int(available * len(items) / total_items))] when
    [total_items > 0], else [1]; [/] is the true division of Python 3. *)
Definition share (available n_items total_items : Z) : option Z :=
  if 0 <? total_items then
    match true_divide (available * n_items) total_items with
    | Some x =>
        match int_of_float x with
        | Some i => Some (Z.max 1 i)
        | None => None
        end
    | None => None
    end
  else Some 1.

(** The loop filling [per_section]. *)
Fixpoint allocate (available total_items : Z)
         (active_sections : list (section * list (@item R)))
  : option (list (section * Z)) :=
  match active_sections with
  | [] => Some []
  | (name, items) :: rest =>
      match share available (len items) total_items with
      | Some sh =>
          match allocate available total_items rest with
          | Some per_section => Some ((name, sh) :: per_section)
          | None => None
          end
      | None => None
      end
  end.

Definition active_of (sections : section -> list (@item R))
  : list (section * list (@item R)) :=
  filter (fun ni => match snd ni with [] => false | _ => true end)
         (map (fun s => (s, sections s)) SECTION_ORDER).

Definition available_for (active_sections : list (section * list (@item R)))
  : Z :=
  let header_overhead := 4 in
  let section_overhead := len active_sections * 2 in
  let available := LINE_BUDGET - header_overhead - section_overhead in
  if available <? len active_sections then len active_sections
  else available.

Definition total_items_of (active_sections : list (section * list (@item R)))
  : Z :=
  fold_right Z.add 0 (map (fun ni => len (snd ni)) active_sections).

(** [per_section] once the shrinking loop has run.  A round takes 1 off
    the sum of the shares, so their sum is fuel enough. *)
Definition shares_of (active_sections : list (section * list (@item R)))
  : option (list (section * Z)) :=
  let available := available_for active_sections in
  match allocate available (total_items_of active_sections) active_sections with
  | Some per_section =>
      Some (adjust (Z.to_nat (sum_values per_section)) available per_section)
  | None => None
  end.

Definition header_lines : list pystr :=
  [lit "# Kudzu Memory Context"; [];
   lit "_Auto-generated by kudzu-context.py at " ++ now ++ lit "_"; []].

(** One round of the rendering loop. *)
Definition render_section (per_section : list (section * Z))
           (lines : list pystr) (ni : section * list (@item R)) : list pystr :=
  let max_items := share_get per_section (fst ni) 3 in
  lines ++ [lit "## " ++ section_name (fst ni)] ++ [[]]
        ++ map (fun x : @item R => lit "- " ++ truncate_line (fst x) 120)
               (slice_to max_items (snd ni))
        ++ [[]].

Definition TRUNCATION_NOTICE : pystr :=
  lit "_... (truncated to fit line budget)_".

(** The final trim to the budget. *)
Definition final_trim (lines : list pystr) : list pystr :=
  if LINE_BUDGET <? len lines
  then slice_to (LINE_BUDGET - 1) lines ++ [TRUNCATION_NOTICE]
  else lines.

(** The list [lines] when the rendering loop is over, before the final
    trim. *)
Definition rendered_lines (sections : section -> list (@item R))
  : option (list pystr) :=
  let active_sections := active_of sections in
  match shares_of active_sections with
  | Some per_section =>
      Some (fold_left (render_section per_section) active_sections header_lines)
  | None => None
  end.

(** The list [lines] that [render_memory_md] joins at its [return]. *)
Definition render_lines (sections : section -> list (@item R))
  : option (list pystr) :=
  match active_of sections with
  | [] => Some (header_lines ++ [lit "_No traces found in Kudzu._"])
  | _ =>
      match rendered_lines sections with
      | Some lines => Some (final_trim lines)
      | None => None
      end
  end.

Definition render_memory_md (sections : section -> list (@item R))
  : option pystr :=
  match render_lines sections with
  | Some lines => Some (join newline lines)
  | None => None
  end.
End Render.

(** ** Hologram discovery *)

(** A line boundary of [str.splitlines]: U+000A..U+000D, U+001C..U+001E
    and U+0085. *)
Definition is_linebreak (c : ascii) : bool :=
  let n := code c in
  ((10 <=? n) && (n <=? 13) || (28 <=? n) && (n <=? 30) || (n =? 133))%N.

(** [text.splitlines()], reading [text] behind the characters of the
    current [line]; a line feed right after a carriage return belongs to
    the same boundary, and no empty line is added behind the last
    boundary. *)
Fixpoint splitlines_from (after_cr : bool) (line text : pystr) : list pystr :=
  match text with
  | [] => match line with [] => [] | _ => [line] end
  | c :: text' =>
      if Ascii.eqb c newline && after_cr then splitlines_from false line text'
      else if is_linebreak c
           then line :: splitlines_from (Ascii.eqb c (ascii_of_N 13)) [] text'
           else splitlines_from false (line ++ [c]) text'
  end.

Definition splitlines (text : pystr) : list pystr :=
  splitlines_from false [] text.

(** [s.split(sep, 1)] for a separator of one character that occurs in
    [s]: what is before and what is behind its first occurrence. *)
Fixpoint split_once (sep : ascii) (s : pystr) : option (pystr * pystr) :=
  match s with
  | [] => None
  | c :: s' =>
      if Ascii.eqb c sep then Some ([], s')
      else match split_once sep s' with
           | Some (before, behind) => Some (c :: before, behind)
           | None => None
           end
  end.

(** [d[key] = v]: the value of a present key is replaced in place, a new
    key goes to the end. *)
Fixpoint dict_set (d : pydict) (key : pystr) (v : pyval) : pydict :=
  match d with
  | [] => [(key, v)]
  | kv :: d' => if str_eqb (fst kv) key then (fst kv, v) :: d'
                else kv :: dict_set d' key v
  end.

(** [a < b] on strings: lexicographic on the code points. *)
Fixpoint str_ltb (a b : pystr) : bool :=
  match a, b with
  | _, [] => false
  | [], _ :: _ => true
  | x :: a', y :: b' =>
      if (code x <? code y)%N then true
      else if (code y <? code x)%N then false
      else str_ltb a' b'
  end.

(** [sorted(l, key=key)]: the stable sort into ascending key order. *)
Section SortedAsc.
Context {A K : Type} (ltb : K -> K -> bool) (key : A -> K).

Fixpoint insert_asc (x : A) (l : list A) : list A :=
  match l with
  | [] => [x]
  | y :: l' => if ltb (key y) (key x) then y :: insert_asc x l'
               else x :: y :: l'
  end.

Definition sorted_asc (l : list A) : list A :=
  fold_right insert_asc [] l.
End SortedAsc.

(** [{"MEMORY_ID": "", "RESEARCH_ID": "", "LEARNING_ID": ""}] *)
Definition no_ids : pydict :=
  [(lit "MEMORY_ID", VStr []); (lit "RESEARCH_ID", VStr []);
   (lit "LEARNING_ID", VStr [])].

(** One round of the loop of [load_hologram_ids] over the lines of the
    state file. *)
Definition load_line (ids : pydict) (line : pystr) : pydict :=
  let line := strip line in
  if contains (lit "=") line then
    match split_once "="%char line with
    | Some (key, value) =>
        if dict_mem ids key then dict_set ids key (VStr (strip value))
        else ids
    | None => ids
    end
  else ids.

(** [load_hologram_ids()].  [state_file] is what
    [HOLOGRAM_FILE.read_text()] gives: [Some text], or [None] when the
    file does not exist or reading it raises [OSError], which the function
    catches.  Bytes that cannot be decoded make [read_text] raise
    [UnicodeDecodeError]; that is no [OSError], the function does not
    catch it and returns nothing: such a run has no [state_file] here. *)
Definition load_hologram_ids (state_file : option pystr) : pydict :=
  match state_file with
  | Some text => fold_left load_line (splitlines text) no_ids
  | None => no_ids
  end.

Definition purpose_map : list (pystr * pystr) :=
  [(lit "claude_memory", lit "MEMORY_ID");
   (lit "claude_research", lit "RESEARCH_ID");
   (lit "claude_learning", lit "LEARNING_ID")].

(** The loop of [discover_hologram_ids].  An entry that is no mapping, or
    whose purpose cannot be hashed, raises; the exception is caught
    outside the loop, which ends with the ids found so far. *)
Fixpoint discover_loop (ids : pydict) (holograms : list pyval) : pydict :=
  match holograms with
  | [] => ids
  | VDict h :: rest =>
      let purpose := dict_get h (lit "purpose") (VStr []) in
      match purpose with
      | VList _ | VDict _ => ids
      | _ =>
          match find (fun kv => eq_str purpose (fst kv)) purpose_map with
          | Some kv =>
              discover_loop (dict_set ids (snd kv)
                                      (dict_get h (lit "id") (VStr [])))
                            rest
          | None => discover_loop ids rest
          end
      end
  | _ :: _ => ids
  end.

(** [discover_hologram_ids()], with the decoded answer of the API to
    [/api/v1/holograms]; [None] when the request or the decoding raises.
    An answer that is no mapping, or whose "holograms" is no list, raises
    before the first assignment or as the loop starts, or gives nothing to
    loop over: the ids stay empty. *)
Definition discover_hologram_ids (api_holograms : option pyval) : pydict :=
  match api_holograms with
  | Some (VDict data) =>
      match dict_get data (lit "holograms") (VList []) with
      | VList holograms => discover_loop no_ids holograms
      | _ => no_ids
      end
  | _ => no_ids
  end.

Section Saving.
Variable py_str : pyval -> pystr.

(** [f"{v}"]: a string as it is, another value by [str()]. *)
Definition format_value (v : pyval) : pystr :=
  match v with
  | VStr s => s
  | _ => py_str v
  end.

(** The content that [save_hologram_ids(ids)] writes to the state file. *)
Definition save_hologram_ids (ids : pydict) : pystr :=
  join newline
       (map (fun kv => fst kv ++ lit "=" ++ format_value (snd kv))
            (filter (fun kv => truthy (snd kv))
                    (sorted_asc str_ltb (fun kv : pystr * pyval => fst kv) ids)))
  ++ [newline].

(** One round of the merging loop of [get_hologram_ids]; both dicts hold
    the key. *)
Definition merge_key (discovered ids : pydict) (key : pystr) : pydict :=
  if negb (truthy (dict_get ids key VNone))
     && truthy (dict_get discovered key VNone)
  then dict_set ids key (dict_get discovered key VNone)
  else ids.

(** [get_hologram_ids()]: the ids, and the content saved to the state file
    when something is saved. *)
Definition get_hologram_ids (state_file : option pystr)
           (api_holograms : option pyval) : pydict * option pystr :=
  let ids := load_hologram_ids state_file in
  if forallb truthy (dict_values ids) then (ids, None)
  else
    let discovered := discover_hologram_ids api_holograms in
    let ids := fold_left (merge_key discovered) (map fst ids) ids in
    if existsb truthy (dict_values ids)
    then (ids, Some (save_hologram_ids ids))
    else (ids, None).
End Saving.

(** ** Summary output *)

(** [sep.join(parts)] for a separator of any length. *)
Fixpoint join_str (sep : pystr) (parts : list pystr) : pystr :=
  match parts with
  | [] => []
  | [p] => p
  | p :: rest => p ++ sep ++ join_str sep rest
  end.

(** An entry of [all_items]: the name of the section, the content and the
    recency. *)
Definition summary_item : Type := pystr * pystr * pyval.

(** [all_items] of [print_summary] before it is sorted: the first three
    items of every active section. *)
Definition summary_candidates (active : list (section * list (@item pyval)))
  : list summary_item :=
  flat_map (fun ni => map (fun x => (section_name (fst ni), fst x, snd x))
                          (slice_to 3 (snd ni)))
           active.

(** [all_items[:3]] after the sort by recency, most recent first. *)
Definition summary_top (active : list (section * list (@item pyval)))
  : list summary_item :=
  slice_to 3 (sorted_desc py_lt (fun x : summary_item => snd x)
                          (summary_candidates active)).

Definition summary_line (x : summary_item) : pystr :=
  lit "  [" ++ fst (fst x) ++ lit "] " ++ truncate_line (snd (fst x)) 90.

Section Summary.
Variable py_str : pyval -> pystr.

(** The first line of the summary when there are traces. *)
Definition summary_head (active : list (section * list (@item pyval)))
  : pystr :=
  let total := total_items_of active in
  let section_names :=
    join_str (lit ", ") (map (fun ni => section_name (fst ni)) active) in
  lit "[kudzu-context] Loaded " ++ py_str (VInt total)
  ++ lit " traces into " ++ py_str (VInt (len active))
  ++ lit " sections: " ++ section_names.

(** [print_summary(sections)]: the lines printed to stdout. *)
Definition print_summary (sections : sections_t) : list pystr :=
  let active := active_of sections in
  match active with
  | [] => [lit "[kudzu-context] No traces found"]
  | _ :: _ => summary_head active :: map summary_line (summary_top active)
  end.
End Summary.

(** ** Main *)

(** Steps 4 and 5 of [main]: the sections are built from all the fetched
    traces and rendered; the result is the text written to the given
    path. *)
Definition context_document (py_str : pyval -> pystr) (now : pystr)
           (all_traces : list pydict) : option pystr :=
  let sections := build_sections py_str all_traces in
  render_memory_md now sections.

End Kudzu.

(* ------------------------------------------------------------------ *)
(** * Vocabulary of the properties *)
(* ------------------------------------------------------------------ *)

Import PyStr PyNum PyVal Kudzu.

(** Descending key order. *)
Definition Desc {A : Type} (key : A -> nat) : list A -> Prop :=
  StronglySorted (fun x y => key y <= key x).

(** Some keyword of [keywords] occurs in the lowercased content. *)
Definition HasKeyword (keywords : list pystr) (content : pystr) : Prop :=
  exists kw, In kw keywords /\ Substring kw (lower content).

(** The shares as the specification words them: the integer floor of
    [available * item_count / total_item_count], raised to at least 1. *)
Definition floor_shares {R : Type} (available total : Z)
           (active : list (section * list (@item R))) : list (section * Z) :=
  map (fun ni => (fst ni, Z.max 1 (available * len (snd ni) / total))) active.

(** No line break inside a line. *)
Definition no_newline (line : pystr) : bool :=
  forallb (fun c => negb (Ascii.eqb c newline)) line.

(** The number of lines of a document: one more than its line breaks. *)
Definition line_count (doc : pystr) : Z :=
  1 + Z.of_nat (count_occ ascii_dec doc newline).


(** What [build_sections] derives from one trace: whether the trace is
    kept (its content is neither empty nor "{}"), its item and its
    section. *)
Definition kept_trace (py_str : pyval -> pystr) (trace : pydict) : bool :=
  let content := extract_content py_str trace in
  negb (match content with [] => true | _ => false end
        || str_eqb content (lit "{}")).

Definition trace_item (py_str : pyval -> pystr) (trace : pydict)
  : pystr * pyval :=
  (extract_content py_str trace, extract_recency trace).

Definition trace_section (py_str : pyval -> pystr) (trace : pydict) : section :=
  categorize_trace trace (extract_content py_str trace).

(** Most recent first: no item is less recent than a later one. *)
Definition RecencyDesc : list (pystr * pyval) -> Prop :=
  StronglySorted (fun x y => py_lt (snd x) (snd y) = false).

(** A number that is not a NaN, as all integers are. *)
Definition comparable (v : pyval) : Prop := num_value v <> XNan.

(** The lines of one section under the shares [per_section], and with all
    of its items. *)
Definition section_block {R : Type} (per_section : list (section * Z))
           (ni : section * list (@item R)) : list pystr :=
  [lit "## " ++ section_name (fst ni); []]
    ++ map (fun x : @item R => lit "- " ++ truncate_line (fst x) 120)
           (slice_to (share_get per_section (fst ni) 3) (snd ni))
    ++ [[]].

Definition full_block {R : Type} (ni : section * list (@item R)) : list pystr :=
  [lit "## " ++ section_name (fst ni); []]
    ++ map (fun x : @item R => lit "- " ++ truncate_line (fst x) 120) (snd ni)
    ++ [[]].

(** A line that is a section heading. *)
Definition is_heading (line : pystr) : bool := starts_with (lit "## ") line.

(** The time stamp line of the header. *)
Definition stamp_line (now : pystr) : pystr :=
  lit "_Auto-generated by kudzu-context.py at " ++ now ++ lit "_".

(** The keys of the hologram ids, in the order of the dict. *)
Definition ID_KEYS : list pystr := map fst no_ids.

(** Free of line boundaries. *)
Definition one_line (s : pystr) : Prop :=
  Forall (fun c => is_linebreak c = false) s.

(** A value as the state file can hold it: on one line, no white space
    at either end. *)
Definition clean (s : pystr) : Prop := strip s = s /\ one_line s.

(** Hologram ids with the three keys in their order and clean strings as
    values. *)
Definition clean_ids (ids : pydict) : Prop :=
  map fst ids = ID_KEYS /\
  Forall (fun kv => exists s, snd kv = VStr s /\ clean s) ids.

(** The line of the state file for one id: none for an empty value. *)
Definition id_line (key value : pystr) : list pystr :=
  match value with
  | [] => []
  | _ => [key ++ lit "=" ++ value]
  end.

(** What [discover_hologram_ids] can put under [key]: the id of a listed
    hologram whose purpose is the one of [key]. *)
Definition listed (holograms : list pyval) (key : pystr) (v : pyval) : Prop :=
  exists h purpose,
    In (VDict h) holograms /\
    dict_get h (lit "purpose") (VStr []) = VStr purpose /\
    In (purpose, key) purpose_map /\
    v = dict_get h (lit "id") (VStr []).


(** The merge of [get_hologram_ids] under one key: the value at hand
    unless it is empty and the discovered one is not. *)
Definition prefer (mine theirs : pyval) : pyval :=
  if truthy mine then mine else if truthy theirs then theirs else mine.

(** Concrete inputs. *)
Module Examples.
Local Open Scope Z_scope.

Definition entry (content : string) (recency : Z) : pystr * Z :=
  (lit content, recency).

Definition rsync_items : list (pystr * Z) :=
  [entry "Use rsync to deploy" 1; entry "Use rsync to deploy to titan" 2;
   entry "Titan runs the API" 3].


(** Two notes of the same length that differ in case only. *)
Definition tie_items : list (pystr * Z) :=
  [entry "Deploy to Titan" 1; entry "deploy to titan" 2].

Definition observation (content : string) : pydict :=
  [(lit "purpose", VStr (lit "observation"));
   (lit "reconstruction_hint", VDict [(lit "content", VStr (lit content))])].

Definition blank_summary_trace : pydict :=
  [(lit "purpose", VStr (lit "decision"));
   (lit "reconstruction_hint",
    VDict [(lit "summary", VStr (lit "   "));
           (lit "event", VStr (lit "Switched to Postgres"))])].

Definition two_node_trace : pydict :=
  [(lit "timestamp", VDict [(lit "node-a", VInt 5); (lit "node-b", VInt 9)])].

(** The float 1.5. *)
Definition one_and_a_half : spec_float :=
  S754_finite false 6755399441055744 (-52).

Definition float_clock_trace : pydict :=
  [(lit "timestamp", VDict [(lit "node-a", VFloat one_and_a_half)])].

(** Entries "<prefix>10", "<prefix>11", ... of falling recency: none is
    inside another. *)
Definition numbered (prefix : string) (n : nat) : list (pystr * Z) :=
  map (fun i => (lit prefix
                   ++ [ascii_of_nat (48 + i / 10); ascii_of_nat (48 + i mod 10)],
                 100 - Z.of_nat i))
      (seq 10 n).

Definition small_sections (s : section) : list (pystr * Z) :=
  match s with
  | CurrentState => numbered "state " 3
  | KeyFacts => numbered "fact " 1
  | _ => []
  end.

(** Five sections of forty items and a last one of a single item. *)
Definition crowded_sections (s : section) : list (pystr * Z) :=
  match s with
  | RecentDecisions => [entry "Switched to Postgres for storage" 7]
  | CurrentState => numbered "state " 40
  | ActiveProjects => numbered "project " 40
  | KeyFacts => numbered "fact " 40
  | Workflows => numbered "flow " 40
  | Learnings => numbered "lesson " 40
  end.

(** Item counts of two sections, past [2 ^ 46] in total: beyond any list
    in memory. *)
Definition huge_count : Z := 171 * 2 ^ 39 - 1.
Definition huge_total : Z := 172 * 2 ^ 39 - 1.

Definition decision (content : string) (clock : Z) : pydict :=
  [(lit "purpose", VStr (lit "decision"));
   (lit "timestamp", VDict [(lit "node-a", VInt clock)]);
   (lit "reconstruction_hint", VDict [(lit "content", VStr (lit content))])].

Definition decision_traces : list pydict :=
  [decision "Use Postgres" 3; decision "Ship on Friday" 8;
   decision "use postgres for storage" 5].

(** The answer of the API to a listing of the holograms. *)
Definition hologram (id purpose : string) : pyval :=
  VDict [(lit "id", VStr (lit id)); (lit "purpose", VStr (lit purpose))].

Definition hologram_listing : pyval :=
  VDict [(lit "holograms",
          VList [hologram "h-mem" "claude_memory";
                 hologram "h-else" "scratch";
                 hologram "h-res" "claude_research";
                 hologram "h-learn" "claude_learning"])].

(** A state file that knows one id only. *)
Definition partial_state_file : pystr :=
  lit "# hologram ids" ++ [newline] ++ lit " RESEARCH_ID= h-old ".

Definition some_ids : pydict :=
  [(lit "MEMORY_ID", VStr (lit "h-mem")); (lit "RESEARCH_ID", VStr []);
   (lit "LEARNING_ID", VStr (lit "h-learn"))].

(** Five decisions, one of them inside another. *)
Definition many_decisions : list pydict :=
  decision_traces
  ++ [decision "Rotate the keys monthly" 9; decision "Archive old logs" 1].

Definition clock : pystr := lit "2026-01-01 00:00".

(** [str()] replaced by a constant, for inputs that never reach it. *)
Definition no_str (v : pyval) : pystr := lit "{...}".

End Examples.

(* ------------------------------------------------------------------ *)
(** * Properties *)
(* ------------------------------------------------------------------ *)

(** ** Strings *)

Lemma starts_with_spec (p s : pystr) :
  starts_with p s = true <-> exists post, s = p ++ post.
Proof.
  revert s; induction p as [|a p IH]; intros s; simpl.
  - split; [intros _; now exists s | reflexivity].
  - destruct s as [|b s].
    + split; [discriminate | intros [post H]; discriminate].
    + rewrite andb_true_iff, Ascii.eqb_eq, IH. split.
      * intros [-> [post ->]]. now exists post.
      * intros [post H]. injection H as -> ->. split; [reflexivity | now exists post].
Qed.

Lemma contains_spec (p s : pystr) :
  contains p s = true <-> Substring p s.
Proof.
  unfold Substring. induction s as [|b s IH].
  - simpl. rewrite orb_false_r, starts_with_spec. split.
    + intros [post H]. now exists [], post.
    + intros [pre [post H]]. destruct pre; simpl in H.
      * now exists post.
      * discriminate.
  - cbn [contains]. rewrite orb_true_iff, IH, starts_with_spec. split.
    + intros [[post H] | [pre [post H]]].
      * now exists [], post.
      * exists (b :: pre), post. simpl. now rewrite H.
    + intros [pre [post H]]. destruct pre as [|c pre]; simpl in H.
      * left. now exists post.
      * right. injection H as _ H. now exists pre, post.
Qed.

Lemma contains_refl (s : pystr) : contains s s = true.
Proof. apply contains_spec. exists [], []. simpl. now rewrite app_nil_r. Qed.

Lemma contains_length (p s : pystr) :
  contains p s = true -> length p <= length s.
Proof.
  rewrite contains_spec. intros [pre [post ->]].
  rewrite !length_app. lia.
Qed.


Lemma lower_length (s : pystr) : length (lower s) = length s.
Proof. apply length_map. Qed.

Lemma lstrip_all_space (s : pystr) :
  forallb is_space s = true -> lstrip s = [].
Proof.
  induction s as [|c s IH]; simpl; [reflexivity|].
  rewrite andb_true_iff. intros [-> H]. auto.
Qed.

Lemma strip_all_space (s : pystr) :
  forallb is_space s = true -> strip s = [].
Proof.
  intros H. unfold strip. now rewrite (lstrip_all_space _ H).
Qed.

(** ** Stable sorting *)

Section SortedFacts.
Context {A : Type} (key : A -> nat).

Local Abbreviation insert := (insert_desc Nat.ltb key).
Local Abbreviation sort := (sorted_desc Nat.ltb key).

Lemma insert_desc_perm (x : A) (l : list A) :
  Permutation (x :: l) (insert x l).
Proof.
  induction l as [|y l IH]; simpl; [reflexivity|].
  destruct (key x <? key y)%nat; [|reflexivity].
  rewrite perm_swap. now constructor.
Qed.

Lemma sorted_desc_perm (l : list A) : Permutation l (sort l).
Proof.
  induction l as [|x l IH]; simpl; [reflexivity|].
  rewrite <- insert_desc_perm. now constructor.
Qed.

Lemma insert_desc_Desc (x : A) (l : list A) :
  Desc key l -> Desc key (insert x l).
Proof.
  unfold Desc. induction 1 as [|y l Hl IH Hy]; simpl.
  - repeat constructor.
  - destruct (Nat.ltb_spec (key x) (key y)) as [Hlt|Hge].
    + constructor; [assumption|].
      rewrite <- insert_desc_perm. constructor; [lia | assumption].
    + constructor; [now constructor|].
      constructor; [assumption|].
      rewrite Forall_forall in *. intros z Hz. specialize (Hy z Hz). lia.
Qed.

Lemma sorted_desc_Desc (l : list A) : Desc key (sort l).
Proof.
  induction l as [|x l IH]; simpl; [constructor|].
  now apply insert_desc_Desc.
Qed.

(** Sorting a list that is in descending order already changes nothing. *)
Lemma sorted_desc_fixed (l : list A) : Desc key l -> sort l = l.
Proof.
  unfold Desc. induction 1 as [|x l Hl IH Hx]; simpl; [reflexivity|].
  rewrite IH. destruct l as [|y l]; simpl; [reflexivity|].
  apply Forall_inv in Hx.
  destruct (Nat.ltb_spec (key x) (key y)); [lia | reflexivity].
Qed.

(** Stability: items of one key keep their relative order. *)
Lemma insert_desc_stable (k : nat) (x : A) (l : list A) :
  filter (fun y => key y =? k)%nat (insert x l)
  = filter (fun y => key y =? k)%nat (x :: l).
Proof.
  induction l as [|y l IH]; [reflexivity|].
  cbn [insert_desc].
  destruct (Nat.ltb_spec (key x) (key y)) as [Hlt|Hge]; [|reflexivity].
  cbn [filter] in *. rewrite IH.
  destruct (Nat.eqb_spec (key y) k), (Nat.eqb_spec (key x) k);
    try reflexivity; lia.
Qed.

Lemma sorted_desc_stable (k : nat) (l : list A) :
  filter (fun y => key y =? k)%nat (sort l)
  = filter (fun y => key y =? k)%nat l.
Proof.
  induction l as [|x l IH]; [reflexivity|].
  cbn [sorted_desc fold_right]. fold (sort l).
  rewrite insert_desc_stable. cbn [filter]. now rewrite IH.
Qed.

Lemma Desc_app_remove (l1 l2 : list A) (x : A) :
  Desc key (l1 ++ x :: l2) -> Desc key (l1 ++ l2).
Proof.
  unfold Desc. induction l1 as [|y l1 IH]; simpl; intros H.
  - now inversion H.
  - inversion H as [|? ? Hs Hf]; subst. constructor; [auto|].
    rewrite Forall_app in *. destruct Hf as [Hf1 Hf2].
    split; [assumption | now inversion Hf2].
Qed.

(** The head of a sorted non-empty list is an item of greatest key. *)
Lemma sorted_desc_head (l : list A) :
  l <> [] ->
  exists x rest, sort l = x :: rest /\ In x l
                 /\ forall y, In y l -> key y <= key x.
Proof.
  intros Hne.
  pose proof (sorted_desc_perm l) as Hp.
  pose proof (sorted_desc_Desc l) as Hd.
  destruct (sort l) as [|x rest] eqn:E.
  - apply Permutation_sym, Permutation_nil in Hp. contradiction.
  - exists x, rest. split; [reflexivity|]. split.
    + apply Permutation_in with (x :: rest); [now symmetry | now left].
    + intros y Hy. apply (Permutation_in _ Hp) in Hy.
      inversion Hd as [|? ? _ Hf]; subst.
      destruct Hy as [<- | Hy]; [lia|].
      rewrite Forall_forall in Hf. now apply Hf.
Qed.
End SortedFacts.


(** ** Deduplication *)

Section DedupFacts.
Context {R : Type}.

Local Abbreviation item := (@Kudzu.item R).
Local Abbreviation size := (fun x : item => length (fst x)).

(** The loop only ever appends to [kept]. *)
Lemma dedup_loop_extends (l kept : list item) :
  exists r, dedup_loop kept l = kept ++ r.
Proof.
  revert kept. induction l as [|[c rc] l IH]; intros kept; simpl.
  - exists []. now rewrite app_nil_r.
  - destruct (is_dup (normalize c) kept).
    + apply IH.
    + destruct (IH (kept ++ [(c, rc)])) as [r Hr].
      exists ((c, rc) :: r). now rewrite Hr, <- app_assoc.
Qed.

Lemma dedup_loop_keeps (l kept : list item) (x : item) :
  In x kept -> In x (dedup_loop kept l).
Proof.
  intros Hx. destruct (dedup_loop_extends l kept) as [r ->].
  apply in_or_app. now left.
Qed.

(** What the loop drops, it drops from the items it walks. *)
Lemma dedup_loop_removes (l kept : list item) :
  exists removed, Permutation (kept ++ l) (dedup_loop kept l ++ removed).
Proof.
  revert kept. induction l as [|[c rc] l IH]; intros kept; simpl.
  - exists []. reflexivity.
  - destruct (is_dup (normalize c) kept).
    + destruct (IH kept) as [removed Hp].
      exists ((c, rc) :: removed).
      rewrite <- !Permutation_middle. now constructor.
    + destruct (IH (kept ++ [(c, rc)])) as [removed Hp].
      exists removed. now rewrite <- Hp, <- app_assoc.
Qed.

Lemma dedup_loop_Desc (l kept : list item) :
  Desc size (kept ++ l) -> Desc size (dedup_loop kept l).
Proof.
  revert kept. induction l as [|[c rc] l IH]; intros kept; simpl.
  - now rewrite app_nil_r.
  - intros H. destruct (is_dup (normalize c) kept).
    + apply IH. now apply Desc_app_remove in H.
    + apply IH. now rewrite <- app_assoc.
Qed.

(** Walking the items the loop has added, from the same [kept], adds them
    all again. *)
Lemma dedup_loop_again (l kept r : list item) :
  dedup_loop kept l = kept ++ r -> dedup_loop kept r = kept ++ r.
Proof.
  revert kept r. induction l as [|[c rc] l IH]; intros kept r; simpl.
  - intros H. rewrite <- (app_nil_r kept) in H at 1.
    apply app_inv_head in H. subst r. simpl. now rewrite app_nil_r.
  - destruct (is_dup (normalize c) kept) eqn:E; [apply IH|].
    intros H.
    destruct (dedup_loop_extends l (kept ++ [(c, rc)])) as [r' Hr'].
    assert (r = (c, rc) :: r') as ->.
    { rewrite Hr', <- app_assoc in H. now apply app_inv_head in H. }
    simpl. rewrite E.
    rewrite (IH _ _ Hr'). now rewrite <- app_assoc.
Qed.


(** Walking a list in descending length order, a dropped item lies
    inside a kept item that is at least as long. *)
Lemma dedup_loop_covers_longer (l kept : list item) (x : item) :
  Desc size (kept ++ l) -> In x l ->
  In x (dedup_loop kept l)
  \/ exists y, In y (dedup_loop kept l)
               /\ length (fst x) <= length (fst y)
               /\ contains (normalize (fst x)) (normalize (fst y)) = true.
Proof.
  revert kept. induction l as [|[c rc] l IH]; intros kept Hd Hx;
    [contradiction|].
  cbn [dedup_loop]. destruct (is_dup (normalize c) kept) eqn:E.
  - destruct Hx as [<- | Hx].
    + right. unfold is_dup in E. apply existsb_exists in E.
      destruct E as [y [Hy Hc]]. exists y.
      split; [now apply dedup_loop_keeps|]. split; [|exact Hc].
      clear - Hd Hy. unfold Desc in Hd.
      induction kept as [|k kept IH]; [contradiction|].
      inversion Hd as [|? ? Hs Hf]; subst. destruct Hy as [-> | Hy]; [|auto].
      rewrite Forall_app in Hf. destruct Hf as [_ Hf].
      now inversion Hf.
    + apply IH; [|exact Hx]. now apply Desc_app_remove in Hd.
  - destruct Hx as [<- | Hx].
    + left. apply dedup_loop_keeps, in_or_app. right. now left.
    + apply IH; [|exact Hx]. now rewrite <- app_assoc.
Qed.

Lemma deduplicate_subset (items : list item) (x : item) :
  In x (deduplicate items) -> In x items.
Proof.
  destruct items as [|i items]; [trivial|].
  unfold deduplicate. intros Hx.
  destruct (dedup_loop_removes (sorted_desc Nat.ltb size (i :: items)) [])
    as [removed Hp].
  simpl app in Hp at 1.
  eapply Permutation_in; [symmetry; apply sorted_desc_perm|].
  eapply Permutation_in; [symmetry; exact Hp|].
  apply in_or_app. now left.
Qed.

Lemma deduplicate_Desc (items : list item) :
  Desc size items -> Desc size (deduplicate items).
Proof.
  destruct items as [|i items]; [trivial|]. intros _.
  unfold deduplicate. apply dedup_loop_Desc. apply sorted_desc_Desc.
Qed.

Lemma deduplicate_unfold (items : list item) :
  deduplicate items = dedup_loop [] (sorted_desc Nat.ltb size items).
Proof. now destruct items. Qed.

(** C3. Deduplication is idempotent: deduplicating the output of
    [deduplicate] returns that output unchanged, the same pairs in the same
    order. *)
Theorem deduplicate_idempotent (items : list item) :
  deduplicate (deduplicate items) = deduplicate items.
Proof.
  rewrite (deduplicate_unfold (deduplicate items)).
  rewrite sorted_desc_fixed.
  - rewrite deduplicate_unfold.
    apply (dedup_loop_again (sorted_desc Nat.ltb size items) [] _ eq_refl).
  - rewrite deduplicate_unfold.
    apply dedup_loop_Desc, sorted_desc_Desc.
Qed.

(** C10. [deduplicate] only removes items: the input is, up to order, the
    output together with the removed pairs, so every output pair is an
    input pair, unaltered, and occurs at most as often as in the input. *)
Theorem deduplicate_only_removes (items : list item) :
  (exists removed, Permutation items (deduplicate items ++ removed))
  /\ (forall x, In x (deduplicate items) -> In x items)
  /\ (forall (eq_dec : forall x y : item, {x = y} + {x <> y}) (x : item),
        (count_occ eq_dec (deduplicate items) x <= count_occ eq_dec items x)%nat).
Proof.
  assert (Hp : exists removed, Permutation items (deduplicate items ++ removed)).
  { rewrite deduplicate_unfold.
    destruct (dedup_loop_removes (sorted_desc Nat.ltb size items) [])
      as [removed Hp].
    exists removed. rewrite <- Hp. apply sorted_desc_perm. }
  split; [exact Hp|]. split; [apply deduplicate_subset|].
  intros eq_dec x. destruct Hp as [removed Hp].
  rewrite (proj1 (Permutation_count_occ eq_dec _ _) Hp x), count_occ_app.
  lia.
Qed.

(** C4, as the code has it.  On a non-empty input the output of
    [deduplicate] contains an item of the input whose content length is
    greatest, and an item that is longer than every other item is in the
    output.  An item of greatest length can be dropped, but only as a
    duplicate of a kept item of the same length: its normalized content
    (trimmed, lowercased) lies inside the normalized content of that
    item. *)
Theorem deduplicate_keeps_longest (items : list item) :
  items <> [] ->
  (exists x, In x (deduplicate items) /\ In x items
             /\ forall y, In y items -> length (fst y) <= length (fst x))
  /\ (forall x, In x items ->
        (forall y, In y items -> y = x \/ length (fst y) < length (fst x)) ->
        In x (deduplicate items))
  /\ (forall x, In x items ->
        (forall y, In y items -> length (fst y) <= length (fst x)) ->
        In x (deduplicate items)
        \/ exists y, In y (deduplicate items)
                     /\ length (fst y) = length (fst x)
                     /\ contains (normalize (fst x)) (normalize (fst y)) = true).
Proof.
  intros Hne.
  destruct (sorted_desc_head size Hne) as [h [rest [Hs [Hin Hmax]]]].
  assert (Hh : In h (deduplicate items)).
  { rewrite deduplicate_unfold, Hs. destruct h as [c rc]. simpl.
    apply dedup_loop_keeps. now left. }
  split; [|split].
  - exists h. auto.
  - intros x Hx Hlong. destruct (Hlong h Hin) as [-> | Hlt]; [exact Hh|].
    specialize (Hmax x Hx). simpl in Hmax. lia.
  - intros x Hx Hlong.
    destruct (@dedup_loop_covers_longer (sorted_desc Nat.ltb size items) [] x)
      as [H | [y [Hy [Hlen Hc]]]].
    + apply sorted_desc_Desc.
    + eapply Permutation_in; [apply sorted_desc_perm | exact Hx].
    + left. now rewrite deduplicate_unfold.
    + rewrite <- deduplicate_unfold in Hy. right. exists y.
      split; [exact Hy|]. split; [|exact Hc].
      specialize (Hlong y (deduplicate_subset _ _ Hy)). lia.
Qed.

End DedupFacts.


Lemma deduplicate_keeps_longest_witness :
  Examples.rsync_items <> []
  /\ In (Examples.entry "Use rsync to deploy to titan" 2)
        (deduplicate Examples.rsync_items).
Proof.
  split; [discriminate|].
  apply (deduplicate_keeps_longest (items := Examples.rsync_items));
    [discriminate | vm_compute; tauto |].
  intros y Hy. vm_compute in Hy.
  destruct Hy as [<- | [<- | [<- | []]]].
  - right. apply Nat.ltb_lt. vm_compute. reflexivity.
  - left. vm_compute. reflexivity.
  - right. apply Nat.ltb_lt. vm_compute. reflexivity.
Defined.

(** An item of greatest content length that [deduplicate] discards: of
    two notes that differ in case only, the first is kept and the second,
    as long as the first, is dropped as its duplicate. *)
Lemma deduplicate_maximal_length_counterexample :
  Examples.tie_items <> []
  /\ In (Examples.entry "deploy to titan" 2) Examples.tie_items
  /\ (forall y, In y Examples.tie_items ->
        length (fst y) <= length (fst (Examples.entry "deploy to titan" 2)))
  /\ ~ In (Examples.entry "deploy to titan" 2)
         (deduplicate Examples.tie_items)
  /\ deduplicate Examples.tie_items = [Examples.entry "Deploy to Titan" 1].
Proof.
  split; [discriminate|]. split; [vm_compute; tauto|]. split.
  - intros y Hy. vm_compute in Hy. destruct Hy as [<- | [<- | []]];
      vm_compute; repeat constructor.
  - assert (H : deduplicate Examples.tie_items
                = [Examples.entry "Deploy to Titan" 1])
      by (vm_compute; reflexivity).
    split; [|exact H]. rewrite H. intros [E | []]. discriminate E.
Qed.



(** ** Categorization *)

Lemma str_eqb_eq (a b : pystr) : str_eqb a b = true <-> a = b.
Proof.
  unfold str_eqb. destruct (list_eq_dec ascii_dec a b); split; congruence.
Qed.

Lemma eq_str_false (v : pyval) (s : pystr) :
  v <> VStr s -> eq_str v s = false.
Proof.
  intros H. destruct v; simpl; try reflexivity.
  destruct (str_eqb s0 s) eqn:E; [|reflexivity].
  apply str_eqb_eq in E. congruence.
Qed.

Lemma has_keyword_spec (keywords : list pystr) (content : pystr) :
  existsb (fun kw => contains kw (lower content)) keywords = true
  <-> HasKeyword keywords content.
Proof.
  unfold HasKeyword. rewrite existsb_exists.
  split; intros [kw [Hin H]]; exists kw; split; auto; now apply contains_spec.
Qed.

(** C8. A trace whose purpose is none of learning, discovery, research,
    decision and session_context goes to Workflows when its lowercased
    content has a workflow keyword, else to Key Facts when it has a fact
    keyword, else to Current State; so "The api server runs on port 4000"
    goes to Key Facts. *)
Theorem categorize_trace_general (trace : pydict) :
  let purpose := dict_get trace (lit "purpose") (VStr []) in
  ~ In purpose
       (map (fun p => VStr (lit p))
            ["learning"; "discovery"; "research"; "decision";
             "session_context"]%string) ->
  (forall content,
      (HasKeyword WORKFLOW_KEYWORDS content ->
       categorize_trace trace content = Workflows)
      /\ (~ HasKeyword WORKFLOW_KEYWORDS content ->
          HasKeyword FACT_KEYWORDS content ->
          categorize_trace trace content = KeyFacts)
      /\ (~ HasKeyword WORKFLOW_KEYWORDS content ->
          ~ HasKeyword FACT_KEYWORDS content ->
          categorize_trace trace content = CurrentState))
  /\ categorize_trace trace (lit "The api server runs on port 4000") = KeyFacts.
Proof.
  intros purpose Hp.
  assert (Hgen : forall content,
    categorize_trace trace content
    = if existsb (fun kw => contains kw (lower content)) WORKFLOW_KEYWORDS
      then Workflows
      else if existsb (fun kw => contains kw (lower content)) FACT_KEYWORDS
           then KeyFacts else CurrentState).
  { intros content. unfold categorize_trace. fold purpose.
    cbn [map In] in Hp.
    rewrite !eq_str_false by (intros E; apply Hp; rewrite E; tauto).
    reflexivity. }
  split.
  - intros content. rewrite Hgen, <- !has_keyword_spec.
    destruct (existsb _ WORKFLOW_KEYWORDS);
      destruct (existsb _ FACT_KEYWORDS); intuition congruence.
  - rewrite Hgen. vm_compute. reflexivity.
Qed.

Lemma categorize_trace_general_witness :
  categorize_trace (Examples.observation "The api server runs on port 4000")
                   (lit "The api server runs on port 4000") = KeyFacts.
Proof.
  apply (categorize_trace_general
           (Examples.observation "The api server runs on port 4000")).
  vm_compute. intros H.
  repeat (destruct H as [H | H]; [discriminate H|]). exact H.
Defined.

(** ** Content extraction *)

Lemma dict_get_absent (d : pydict) (key : pystr) (default : pyval) :
  dict_mem d key = false -> dict_get d key default = default.
Proof.
  unfold dict_mem, dict_get. induction d as [|kv d IH]; simpl; [reflexivity|].
  destruct (str_eqb (fst kv) key); [discriminate | exact IH].
Qed.

(** The probe stops at the first field that is present, when it holds a
    non-empty string. *)
Lemma probe_fields_first_present (hint : pydict) (fields : list pystr)
      (field s : pystr) :
  find (dict_mem hint) fields = Some field ->
  dict_get hint field VNone = VStr s ->
  s <> [] ->
  probe_fields hint fields = Some (strip s).
Proof.
  intros Hfind Hget Hs. induction fields as [|f fields IH]; [discriminate|].
  simpl in *. destruct (dict_mem hint f) eqn:E.
  - injection Hfind as ->. rewrite Hget. simpl.
    destruct s; [contradiction | reflexivity].
  - rewrite (dict_get_absent _ _ _ E). auto.
Qed.

Lemma isspace_strip (s : pystr) : isspace s = true -> s <> [] /\ strip s = [].
Proof.
  destruct s as [|c s]; [discriminate|]. intros H. split; [discriminate|].
  now apply strip_all_space.
Qed.

Section ExtractionFacts.
Variable py_str : pyval -> pystr.

(** A trace of empty content leaves the sections as they are. *)
Lemma add_trace_empty (sections : sections_t) (trace : pydict) :
  extract_content py_str trace = [] -> add_trace py_str sections trace = sections.
Proof. unfold add_trace. now intros ->. Qed.

(** C9. When the content payload is a mapping and the first of content,
    summary, key_events, event present in it holds a whitespace-only
    string, [extract_content] returns the empty string, whatever the later
    fields hold, and the trace adds no item to any section. *)
Theorem extract_content_whitespace_only
        (trace hint : pydict) (field s : pystr) :
  dict_get trace (lit "reconstruction_hint") (VDict []) = VDict hint ->
  find (dict_mem hint) (map lit ["content"; "summary"; "key_events"; "event"]%string)
  = Some field ->
  dict_get hint field VNone = VStr s ->
  isspace s = true ->
  extract_content py_str trace = []
  /\ (forall before after,
        collect_sections py_str (before ++ trace :: after)
        = collect_sections py_str (before ++ after))
  /\ (forall before after,
        build_sections py_str (before ++ trace :: after)
        = build_sections py_str (before ++ after)).
Proof.
  intros Hhint Hfind Hget Hsp.
  destruct (isspace_strip _ Hsp) as [Hne Hstrip].
  assert (Hc : extract_content py_str trace = []).
  { unfold extract_content. rewrite Hhint.
    unfold CONTENT_FIELDS.
    now rewrite (probe_fields_first_present _ _ Hfind Hget Hne). }
  assert (Hcol : forall before after,
        collect_sections py_str (before ++ trace :: after)
        = collect_sections py_str (before ++ after)).
  { intros before after. unfold collect_sections.
    rewrite !fold_left_app. simpl. now rewrite add_trace_empty. }
  repeat split; auto.
  intros before after. unfold build_sections. now rewrite Hcol.
Qed.
End ExtractionFacts.

Lemma extract_content_whitespace_only_witness :
  extract_content Examples.no_str Examples.blank_summary_trace = [].
Proof.
  apply (@extract_content_whitespace_only Examples.no_str
           Examples.blank_summary_trace
           [(lit "summary", VStr (lit "   "));
            (lit "event", VStr (lit "Switched to Postgres"))]
           (lit "summary") (lit "   "));
    vm_compute; reflexivity.
Defined.

(** ** Recency *)

Local Open Scope Z_scope.

(** Comparing two dyadic numbers at any common scale below both
    exponents. *)
Lemma dy_compare_scale (E m1 e1 m2 e2 : Z) :
  E <= e1 -> E <= e2 ->
  (dy_compare m1 e1 m2 e2 = Lt <-> m1 * 2 ^ (e1 - E) < m2 * 2 ^ (e2 - E)).
Proof.
  intros H1 H2. unfold dy_compare.
  set (e := Z.min e1 e2).
  assert (He1 : e1 - E = (e1 - e) + (e - E)) by lia.
  assert (He2 : e2 - E = (e2 - e) + (e - E)) by lia.
  rewrite He1, He2, !Z.pow_add_r by lia.
  rewrite !Z.mul_assoc, Z.compare_lt_iff.
  apply Z.mul_lt_mono_pos_r. apply Z.pow_pos_nonneg; lia.
Qed.

Lemma dy_compare_trans (m1 e1 m2 e2 m3 e3 : Z) :
  dy_compare m1 e1 m2 e2 = Lt -> dy_compare m2 e2 m3 e3 = Lt ->
  dy_compare m1 e1 m3 e3 = Lt.
Proof.
  set (E := Z.min e1 (Z.min e2 e3)).
  rewrite (@dy_compare_scale E m1 e1 m2 e2), (@dy_compare_scale E m2 e2 m3 e3),
          (@dy_compare_scale E m1 e1 m3 e3) by lia.
  lia.
Qed.

Lemma xval_ltb_irrefl (x : xval) : xval_ltb x x = false.
Proof.
  destruct x as [|[]|m e]; try reflexivity.
  simpl. unfold dy_compare. now rewrite Z.compare_refl.
Qed.

Lemma xval_ltb_trans (x y z : xval) :
  xval_ltb x y = true -> xval_ltb y z = true -> xval_ltb x z = true.
Proof.
  destruct x as [|[]|m1 e1], y as [|[]|m2 e2], z as [|[]|m3 e3];
    simpl; try congruence.
  destruct (dy_compare m1 e1 m2 e2) eqn:E1; try discriminate.
  destruct (dy_compare m2 e2 m3 e3) eqn:E2; try discriminate.
  now rewrite (dy_compare_trans _ _ _ _ _ _ E1 E2).
Qed.

(** [max] returns an item of the sequence that no item exceeds. *)
Lemma py_max_fold (rest seen : list pyval) (m : pyval) :
  In m seen ->
  (forall x, In x seen -> py_gt x m = false) ->
  In (py_max m rest) (seen ++ rest)
  /\ forall x, In x (seen ++ rest) -> py_gt x (py_max m rest) = false.
Proof.
  unfold py_max. revert seen m.
  induction rest as [|i rest IH]; intros seen m Hm Hmax; simpl.
  - rewrite app_nil_r. auto.
  - replace (seen ++ i :: rest) with ((seen ++ [i]) ++ rest)
      by now rewrite <- app_assoc.
    apply IH.
    + apply in_or_app. destruct (py_gt i m); [right; now left | now left].
    + intros x Hx. apply in_app_or in Hx.
      destruct (py_gt i m) eqn:Egt.
      * destruct Hx as [Hx | [<- | []]]; [|apply xval_ltb_irrefl].
        specialize (Hmax x Hx). unfold py_gt, py_lt in *.
        destruct (xval_ltb (num_value i) (num_value x)) eqn:E; [|reflexivity].
        now rewrite (xval_ltb_trans _ _ _ Egt E) in Hmax.
      * destruct Hx as [Hx | [<- | []]]; auto.
Qed.

Lemma py_max_greatest (first : pyval) (rest : list pyval) :
  In (py_max first rest) (first :: rest)
  /\ forall x, In x (first :: rest) -> py_gt x (py_max first rest) = false.
Proof.
  apply (py_max_fold rest [first] first); [now left|].
  intros x [<- | []]. apply xval_ltb_irrefl.
Qed.

Lemma py_gt_ints (a b : pyval) (za zb : Z) :
  as_int a = Some za -> as_int b = Some zb -> py_gt a b = (zb <? za).
Proof.
  intros Ha Hb.
  assert (Hv : forall v z, as_int v = Some z -> num_value v = XDy z 0).
  { intros v z. destruct v; simpl; try discriminate; now intros [= <-]. }
  unfold py_gt, py_lt. rewrite (Hv _ _ Ha), (Hv _ _ Hb). simpl.
  unfold dy_compare. simpl. rewrite !Z.mul_1_r.
  unfold Z.ltb. now destruct (zb ?= za).
Qed.

(** C6, as the code has it.  [extract_recency] returns a single number:
    0 when the timestamp is not a mapping or has no numeric value, else a
    numeric value of the mapping that none exceeds; the numeric values are
    integers and floats, and the result is an integer, the greatest, when
    they are all integers.  The timestamp of nodes 5 and 9 scores 9. *)
Theorem extract_recency_maximum (trace : pydict) :
  let ts := dict_get trace (lit "timestamp") (VDict []) in
  let r := extract_recency trace in
  ((forall d, ts <> VDict d) -> r = VInt 0)
  /\ (forall d, ts = VDict d ->
        let values := filter is_number (dict_values d) in
        (values = [] -> r = VInt 0)
        /\ (values <> [] ->
            In r values
            /\ (forall v, In v values -> py_gt v r = false)
            /\ ((forall v, In v values -> as_int v <> None) ->
                exists z, as_int r = Some z
                  /\ forall v zv, In v values -> as_int v = Some zv -> zv <= z)))
  /\ extract_recency Examples.two_node_trace = VInt 9.
Proof.
  intros ts r. split; [|split; [|reflexivity]].
  - intros Hnd. subst r. unfold extract_recency. fold ts.
    destruct ts; try reflexivity. now destruct (Hnd d).
  - intros d Hd values. subst r. unfold extract_recency. fold ts.
    rewrite Hd. fold values. split; [now intros ->|].
    destruct values as [|v vs]; [congruence|]. intros _.
    destruct (py_max_greatest v vs) as [Hin Hmax].
    split; [exact Hin|]. split; [exact Hmax|].
    intros Hint.
    destruct (as_int (py_max v vs)) as [z|] eqn:Ez;
      [|now destruct (Hint _ Hin)].
    exists z. split; [reflexivity|].
    intros x zx Hx Hzx. specialize (Hmax x Hx).
    rewrite (py_gt_ints _ _ Hzx Ez) in Hmax. lia.
Qed.

Lemma extract_recency_maximum_witness :
  In (extract_recency Examples.two_node_trace) [VInt 5; VInt 9]
  /\ extract_recency Examples.two_node_trace = VInt 9.
Proof.
  destruct (extract_recency_maximum Examples.two_node_trace)
    as [_ [H Hscenario]].
  split; [|exact Hscenario].
  destruct (H [(lit "node-a", VInt 5); (lit "node-b", VInt 9)] eq_refl)
    as [_ Hmax].
  apply Hmax. discriminate.
Defined.

(** A timestamp whose counter is the float 1.5 scores 1.5, which is no
    integer. *)
Lemma extract_recency_float_counterexample :
  extract_recency Examples.float_clock_trace = VFloat Examples.one_and_a_half
  /\ as_int (extract_recency Examples.float_clock_trace) = None
  /\ forall z, extract_recency Examples.float_clock_trace <> VInt z.
Proof.
  repeat split. intros z. vm_compute. discriminate.
Qed.

(** ** True division and truncation *)

Lemma round_half_even_bounds (a b : Z) :
  0 < b ->
  a / b <= round_half_even a b <= a / b + 1
  /\ (round_half_even a b = a / b + 1 -> b <= 2 * (a mod b)).
Proof.
  intros Hb. unfold round_half_even.
  destruct (Z.ltb_spec (2 * (a mod b)) b); [lia|].
  destruct (Z.ltb_spec b (2 * (a mod b))); [lia|].
  destruct (Z.even (a / b)); lia.
Qed.

(** The exponent estimate is not above the true one: a quotient below 256
    has an estimate of at most 7. *)
Lemma floor_log2_quot_small (a b : Z) :
  0 < a -> 0 < b -> a < 256 * b -> floor_log2_quot a b <= 7.
Proof.
  intros Ha Hb Hab. unfold floor_log2_quot.
  set (d := Z.log2 a - Z.log2 b).
  destruct (Z.log2_spec a Ha) as [Ha1 _].
  destruct (Z.log2_spec b Hb) as [_ Hb2].
  pose proof (Z.log2_nonneg b) as Hlb.
  destruct (Z.le_gt_cases d 7) as [Hd | Hd].
  { destruct (_ <? _); lia. }
  assert (Hpb : 0 < 2 ^ Z.log2 b) by (apply Z.pow_pos_nonneg; lia).
  rewrite Z.pow_succ_r in Hb2 by lia.
  destruct (Z.ltb_spec (a * 2 ^ Z.max 0 (- d)) (b * 2 ^ Z.max 0 d)) as [Ht | Ht].
  - destruct (Z.le_gt_cases d 8) as [Hd8 | Hd9]; [lia|]. exfalso.
    assert (Hpow : 2 ^ Z.log2 a = 2 ^ Z.log2 b * (2 ^ 9 * 2 ^ (d - 9))).
    { rewrite <- !Z.pow_add_r by lia. f_equal. lia. }
    assert (Hp9 : 0 < 2 ^ (d - 9)) by (apply Z.pow_pos_nonneg; lia).
    change (2 ^ 9) with 512 in Hpow. nia.
  - exfalso.
    replace (Z.max 0 (- d)) with 0 in Ht by lia.
    replace (Z.max 0 d) with (8 + (d - 8)) in Ht by lia.
    rewrite Z.pow_add_r, Z.pow_0_r in Ht by lia.
    assert (Hp8 : 0 < 2 ^ (d - 8)) by (apply Z.pow_pos_nonneg; lia).
    change (2 ^ 8) with 256 in Ht. nia.
Qed.

(** [int(a / b)] for a quotient below 256: the float is the quotient
    scaled by [2 ^ s] and rounded to an integer, for some [s] of at least
    45 binary places, and [int] drops those places again. *)
Lemma int_true_divide_small (a b : Z) :
  0 < a -> 0 < b -> a < 256 * b ->
  exists s x,
    45 <= s /\ true_divide a b = Some x
    /\ int_of_float x = Some (round_half_even (a * 2 ^ s) b / 2 ^ s).
Proof.
  intros Ha Hb Hab.
  pose proof (floor_log2_quot_small Ha Hb Hab) as Hlg.
  unfold true_divide.
  destruct (Z.eqb_spec b 0); [lia|]. destruct (Z.eqb_spec a 0); [lia|].
  rewrite (Z.abs_eq a), (Z.abs_eq b) by lia.
  set (e := Z.max (floor_log2_quot a b - 52) (-1074)).
  assert (He : e <= -45) by lia.
  replace (Z.max 0 (- e)) with (- e) by lia.
  replace (Z.max 0 e) with 0 by lia.
  rewrite Z.pow_0_r, Z.mul_1_r.
  set (s := - e). set (m := round_half_even (a * 2 ^ s) b).
  assert (Hs : 0 < 2 ^ s) by (apply Z.pow_pos_nonneg; lia).
  destruct (round_half_even_bounds (a * 2 ^ s) Hb) as [[Hm1 Hm2] _].
  fold m in Hm1, Hm2.
  assert (Hq0 : 0 <= a * 2 ^ s / b) by (apply Z.div_pos; nia).
  assert (Hq : a * 2 ^ s / b < 256 * 2 ^ s).
  { apply Z.div_lt_upper_bound; nia. }
  assert (Hbig : m < 2 ^ (1024 - e)).
  { replace (1024 - e) with (1024 + s) by lia.
    rewrite Z.pow_add_r by lia.
    assert (256 < 2 ^ 1024) by (apply Z.ltb_lt; vm_compute; reflexivity).
    nia. }
  destruct (Z.leb_spec (2 ^ (1024 - e)) m); [lia|].
  assert (Hneg : xorb (a <? 0) (b <? 0) = false).
  { destruct (Z.ltb_spec a 0), (Z.ltb_spec b 0); try lia. reflexivity. }
  rewrite Hneg.
  exists s. destruct (Z.eqb_spec m 0) as [Hm0 | Hm0].
  - exists (S754_zero false). repeat split; [lia|].
    cbn [int_of_float]. fold m. now rewrite Hm0, Z.div_0_l by lia.
  - exists (S754_finite false (Z.to_pos m) e). repeat split; [lia|].
    cbn [int_of_float]. destruct (Z.leb_spec 0 e); [lia|].
    fold s m. now rewrite Z2Pos.id by lia.
Qed.

(** Scaling, rounding and truncating never goes below the floor quotient,
    and gives it exactly when the divisor is below [2 ^ (s + 1)]. *)
Lemma round_scaled_floor (a b s : Z) :
  0 <= a -> 0 < b -> 0 <= s ->
  a / b <= round_half_even (a * 2 ^ s) b / 2 ^ s
  /\ (b < 2 ^ (s + 1) -> round_half_even (a * 2 ^ s) b / 2 ^ s = a / b).
Proof.
  intros Ha Hb Hs.
  assert (Hp : 0 < 2 ^ s) by (apply Z.pow_pos_nonneg; lia).
  destruct (round_half_even_bounds (a * 2 ^ s) Hb) as [[Hm1 Hm2] Hup].
  set (m := round_half_even (a * 2 ^ s) b) in *.
  pose proof (Z.div_mod a b ltac:(lia)) as Hdm.
  pose proof (Z.mod_pos_bound a b Hb) as Hmod.
  pose proof (Z.div_mod (a * 2 ^ s) b ltac:(lia)) as Hdm'.
  pose proof (Z.mod_pos_bound (a * 2 ^ s) b Hb) as Hmod'.
  set (n := a / b) in *. set (q := a * 2 ^ s / b) in *.
  assert (Hlow : n * 2 ^ s <= q).
  { apply Z.div_le_lower_bound; [lia|]. nia. }
  assert (Hge : n <= m / 2 ^ s).
  { apply Z.div_le_lower_bound; [lia|]. nia. }
  split; [exact Hge|].
  intros Hsmall. rewrite Z.pow_add_r, Z.pow_1_r in Hsmall by lia.
  assert (Hlt : m < (n + 1) * 2 ^ s).
  { assert (Hq : q < (n + 1) * 2 ^ s) by nia.
    destruct (Z.eq_dec m (q + 1)) as [E | E]; [|lia].
    specialize (Hup E). nia. }
  assert (m / 2 ^ s < n + 1).
  { apply Z.div_lt_upper_bound; [lia|]. nia. }
  lia.
Qed.

(** ** Shares *)

(** A share is computed without an exception, is at least 1 and at least
    the floor quotient, and is that quotient raised to 1 when fewer than
    [2 ^ 46] items are counted. *)
Lemma share_spec (available k t : Z) :
  0 < available < 256 -> 0 <= k <= t ->
  exists sh,
    share available k t = Some sh
    /\ Z.max 1 (available * k / t) <= sh
    /\ (t < 2 ^ 46 -> sh = Z.max 1 (available * k / t)).
Proof.
  intros Hav Hk. unfold share.
  destruct (Z.ltb_spec 0 t) as [Ht | Ht].
  2:{ exists 1. replace t with 0 by lia. rewrite Z.div_0_r. repeat split; lia. }
  destruct (Z.eq_dec k 0) as [-> | Hk0].
  { rewrite Z.mul_0_r. unfold true_divide.
    destruct (Z.eqb_spec t 0); [lia|]. cbn [Z.eqb int_of_float].
    exists (Z.max 1 0). rewrite Z.div_0_l by lia. repeat split; lia. }
  assert (Ha : 0 < available * k) by nia.
  assert (Hab : available * k < 256 * t) by nia.
  destruct (int_true_divide_small Ha Ht Hab) as [s [x [Hs [-> ->]]]].
  destruct (@round_scaled_floor (available * k) t s) as [Hlow Hexact]; try lia.
  eexists. split; [reflexivity|]. split; [lia|].
  intros Hsmall. rewrite Hexact; [reflexivity|].
  eapply Z.lt_le_trans; [exact Hsmall|].
  apply Z.pow_le_mono_r; lia.
Qed.

Section RenderFacts.
Context {R : Type}.
Variable now : pystr.

Local Abbreviation item := (@Kudzu.item R).
Local Abbreviation active_t := (list (section * list item)).

Lemma len_nonneg {A : Type} (l : list A) : 0 <= len l.
Proof. unfold len. lia. Qed.

Lemma total_items_bound (active : active_t) (ni : section * list item) :
  In ni active -> len (snd ni) <= total_items_of active.
Proof.
  unfold total_items_of. induction active as [|x active IH]; [contradiction|].
  simpl. intros [-> | H].
  - assert (0 <= fold_right Z.add 0 (map (fun ni => len (snd ni)) active)).
    { clear. induction active as [|y active IH]; simpl; [lia|].
      pose proof (len_nonneg (snd y)). lia. }
    lia.
  - specialize (IH H). pose proof (len_nonneg (snd x)). lia.
Qed.

Lemma allocate_spec (available total : Z) (active : active_t) :
  0 < available < 256 ->
  (forall ni, In ni active -> len (snd ni) <= total) ->
  exists per_section,
    allocate available total active = Some per_section
    /\ map fst per_section = map fst active
    /\ Forall (fun kv => 1 <= snd kv) per_section
    /\ (total < 2 ^ 46 -> per_section = floor_shares available total active).
Proof.
  intros Hav. induction active as [|[name items] active IH]; intros Hle.
  - exists []. repeat split; constructor.
  - destruct IH as [ps [Hps [Hfst [Hone Hfloor]]]].
    { intros ni Hni. apply Hle. now right. }
    destruct (@share_spec available (len items) total Hav) as [sh [Hsh [Hlow Hex]]].
    { split; [apply len_nonneg | apply (Hle (name, items)); now left]. }
    exists ((name, sh) :: ps). simpl. rewrite Hsh, Hps.
    split; [reflexivity|]. split; [now rewrite Hfst|].
    split; [constructor; [|exact Hone]|].
    { simpl. etransitivity; [apply Z.le_max_l | exact Hlow]. }
    intros Hsmall. now rewrite (Hex Hsmall), (Hfloor Hsmall).
Qed.

Lemma active_of_length (sections : section -> list item) :
  len (active_of sections) <= 6.
Proof.
  unfold active_of, len.
  set (l := map (fun s => (s, sections s)) SECTION_ORDER).
  pose proof (filter_length_le
                (fun ni : section * list item =>
                   match snd ni with [] => false | _ => true end) l) as H.
  assert (Hl : length l = 6%nat) by reflexivity.
  lia.
Qed.

Lemma available_for_range (sections : section -> list item) :
  164 <= available_for (active_of sections) <= 176
  /\ available_for (active_of sections)
     = LINE_BUDGET - 4 - 2 * len (active_of sections).
Proof.
  pose proof (active_of_length sections).
  pose proof (len_nonneg (active_of sections)).
  unfold available_for, LINE_BUDGET.
  destruct (Z.ltb_spec (180 - 4 - len (active_of sections) * 2)
                       (len (active_of sections))); lia.
Qed.

Lemma allocate_active (sections : section -> list item) :
  let active := active_of sections in
  exists per_section,
    allocate (available_for active) (total_items_of active) active
    = Some per_section
    /\ map fst per_section = map fst active
    /\ Forall (fun kv => 1 <= snd kv) per_section
    /\ (total_items_of active < 2 ^ 46 ->
        per_section
        = floor_shares (available_for active) (total_items_of active) active).
Proof.
  intros active. apply allocate_spec.
  - destruct (available_for_range sections). fold active in H. lia.
  - apply total_items_bound.
Qed.

(** C7.  The share of every active section is the integer floor of
    available * item_count / total_item_count, raised to at least 1.  The
    code divides in floating point and truncates; this is the integer
    floor for every total below [2 ^ 46] (some 7 * 10^13 items), the
    range of the statement, which holds every list a machine can hold:
    [2 ^ 46] items take 512 TiB of references, and [main] fetches at most
    50 traces from a hologram. *)
Theorem allocate_floor_division (sections : section -> list item) :
  let active := active_of sections in
  let available := available_for active in
  let total_items := total_items_of active in
  total_items < 2 ^ 46 ->
  allocate available total_items active
  = Some (floor_shares available total_items active).
Proof.
  intros active available total_items Hsmall.
  destruct (allocate_active sections) as [ps [Hps [_ [_ Hfloor]]]].
  fold active available total_items in Hps, Hfloor.
  now rewrite Hps, (Hfloor Hsmall).
Qed.
End RenderFacts.

Lemma allocate_floor_division_witness :
  allocate 172 4 (active_of Examples.small_sections)
  = Some [(CurrentState, 129); (KeyFacts, 43)].
Proof.
  apply (allocate_floor_division Examples.small_sections).
  vm_compute. reflexivity.
Defined.

(** The range cannot be left out of the statement.  With two active
    sections of [huge_count] and [2 ^ 39] items, lengths no list in memory
    has, the float quotient 172 * huge_count / huge_total is rounded up to
    171.0, while its integer floor is 170. *)
Lemma allocate_rounds_up {R : Type} (l1 l2 : list (pystr * R)) :
  len l1 = Examples.huge_count -> len l2 = 2 ^ 39 ->
  let sections := fun s => match s with
                           | CurrentState => l1
                           | ActiveProjects => l2
                           | _ => []
                           end in
  let active := active_of sections in
  allocate (available_for active) (total_items_of active) active
  = Some [(CurrentState, 171); (ActiveProjects, 1)]
  /\ floor_shares (available_for active) (total_items_of active) active
     = [(CurrentState, 170); (ActiveProjects, 1)].
Proof.
  intros H1 H2 sections active.
  assert (Hactive : active = [(CurrentState, l1); (ActiveProjects, l2)]).
  { subst active sections. unfold active_of.
    destruct l1; [discriminate H1|]. destruct l2; [discriminate H2|].
    reflexivity. }
  rewrite Hactive.
  assert (Hav : available_for [(CurrentState, l1); (ActiveProjects, l2)] = 172)
    by reflexivity.
  assert (Htot : total_items_of [(CurrentState, l1); (ActiveProjects, l2)]
                 = Examples.huge_total).
  { change (len l1 + (len l2 + 0) = Examples.huge_total).
    rewrite H1, H2. reflexivity. }
  rewrite Hav, Htot. unfold floor_shares.
  change (match share 172 (len l1) Examples.huge_total with
          | Some sh =>
              match match share 172 (len l2) Examples.huge_total with
                    | Some sh2 => Some [(ActiveProjects, sh2)]
                    | None => None
                    end with
              | Some per_section => Some ((CurrentState, sh) :: per_section)
              | None => None
              end
          | None => None
          end = Some [(CurrentState, 171); (ActiveProjects, 1)]
          /\ [(CurrentState, Z.max 1 (172 * len l1 / Examples.huge_total));
              (ActiveProjects, Z.max 1 (172 * len l2 / Examples.huge_total))]
             = [(CurrentState, 170); (ActiveProjects, 1)]).
  rewrite H1, H2. split; vm_compute; reflexivity.
Qed.

(** ** The shrinking loop *)

Lemma section_eqb_eq (a b : section) : section_eqb a b = true <-> a = b.
Proof. destruct a, b; simpl; split; congruence. Qed.

Lemma largest_from_greatest (l : list (section * Z)) (best : section * Z) :
  exists v, In (largest_from best l, v) (best :: l)
            /\ forall kv, In kv (best :: l) -> snd kv <= v.
Proof.
  revert best. induction l as [|kv l IH]; intros best; cbn [largest_from].
  - exists (snd best). split; [left; now destruct best|].
    intros kv [<- | []]. lia.
  - destruct (Z.ltb_spec (snd best) (snd kv)) as [Hlt | Hge].
    + destruct (IH kv) as [v [Hin Hmax]]. exists v. split; [now right|].
      intros x [<- | Hx]; [|now apply Hmax].
      specialize (Hmax kv (or_introl eq_refl)). lia.
    + destruct (IH best) as [v [Hin Hmax]]. exists v. split.
      * destruct Hin as [Hin | Hin]; [now left | right; now right].
      * intros x [<- | [<- | Hx]].
        -- apply Hmax. now left.
        -- specialize (Hmax best (or_introl eq_refl)). lia.
        -- apply Hmax. now right.
Qed.

Lemma decrement_absent (k : section) (ps : list (section * Z)) :
  ~ In k (map fst ps) -> decrement k ps = ps.
Proof.
  induction ps as [|kv ps IH]; [reflexivity|]. simpl. intros H.
  destruct (section_eqb (fst kv) k) eqn:E.
  - apply section_eqb_eq in E. tauto.
  - rewrite IH; tauto.
Qed.

Lemma decrement_keys (k : section) (ps : list (section * Z)) :
  map fst (decrement k ps) = map fst ps.
Proof.
  unfold decrement. rewrite map_map. apply map_ext.
  intros kv. now destruct (section_eqb (fst kv) k).
Qed.

(** With distinct keys, the decrement takes 1 off one share and leaves the
    others. *)
Lemma decrement_one (k : section) (v : Z) (ps : list (section * Z)) :
  NoDup (map fst ps) -> In (k, v) ps -> 1 < v ->
  Forall (fun kv => 1 <= snd kv) ps ->
  sum_values (decrement k ps) = sum_values ps - 1
  /\ Forall (fun kv => 1 <= snd kv) (decrement k ps).
Proof.
  unfold sum_values.
  induction ps as [|[k' v'] ps IH]; [contradiction|].
  intros Hnd Hin Hv Hall. inversion Hnd as [|? ? Hnotin Hnd']; subst.
  inversion Hall as [|? ? Hkv Hall']; subst.
  cbn [decrement map fold_right fst snd] in *.
  fold (decrement k ps).
  destruct (section_eqb k' k) eqn:E.
  - apply section_eqb_eq in E. subst k'.
    destruct Hin as [[= ->] | Hin].
    + rewrite (decrement_absent _ _ Hnotin). cbn [snd].
      split; [lia | constructor; [cbn [snd]; lia | exact Hall']].
    + exfalso. apply Hnotin. apply (in_map fst) in Hin. exact Hin.
  - destruct Hin as [[= -> ->] | Hin].
    + rewrite (proj2 (section_eqb_eq k k) eq_refl) in E. discriminate.
    + destruct (IH Hnd' Hin Hv Hall') as [Hs Hf].
      split; [|constructor; assumption].
      cbn [snd]. lia.
Qed.

Lemma all_ones (ps : list (section * Z)) :
  Forall (fun kv => 1 <= snd kv) ps ->
  sum_values ps <= len ps ->
  existsb (fun kv => 1 <? snd kv) ps = false.
Proof.
  unfold sum_values, len. induction 1 as [|kv ps Hkv Hall IH]; [reflexivity|].
  cbn [map fold_right existsb length]. intros Hsum.
  assert (Hlow : Z.of_nat (length ps) <= fold_right Z.add 0 (map snd ps)).
  { clear - Hall. induction Hall as [|x l Hx _ IH]; simpl; [lia|].
    cbn [length] in *. lia. }
  rewrite IH by lia.
  destruct (Z.ltb_spec 1 (snd kv)); [lia | reflexivity].
Qed.

(** With enough fuel the loop stops because its condition fails: the shares
    fit into [available] or are all 1.  The keys stay, and every share
    stays at 1 or above. *)
Lemma adjust_spec (fuel : nat) (available : Z) (ps : list (section * Z)) :
  NoDup (map fst ps) ->
  Forall (fun kv => 1 <= snd kv) ps ->
  sum_values ps - len ps <= Z.of_nat fuel ->
  map fst (adjust fuel available ps) = map fst ps
  /\ Forall (fun kv => 1 <= snd kv) (adjust fuel available ps)
  /\ (available <? sum_values (adjust fuel available ps))
     && existsb (fun kv => 1 <? snd kv) (adjust fuel available ps) = false.
Proof.
  revert ps. induction fuel as [|fuel IH]; intros ps Hnd Hall Hfuel.
  - cbn [adjust]. split; [reflexivity|]. split; [exact Hall|].
    rewrite all_ones; [apply andb_false_r | exact Hall | lia].
  - cbn [adjust].
    destruct ((available <? sum_values ps)
              && existsb (fun kv => 1 <? snd kv) ps) eqn:Econd;
      [|split; [reflexivity | split; [exact Hall | exact Econd]]].
    destruct ps as [|kv rest];
      [cbn [existsb] in Econd; rewrite andb_false_r in Econd; discriminate Econd|].
    apply andb_true_iff in Econd. destruct Econd as [_ Hex].
    apply existsb_exists in Hex. destruct Hex as [x [Hx Hx1]].
    apply Z.ltb_lt in Hx1.
    destruct (largest_from_greatest rest kv) as [v [Hin Hmax]].
    specialize (Hmax x Hx).
    destruct (@decrement_one _ _ _ Hnd Hin ltac:(lia) Hall) as [Hsum Hall'].
    destruct (IH (decrement (largest_from kv rest) (kv :: rest))) as [Hk [Hf Hc]].
    + rewrite decrement_keys. exact Hnd.
    + exact Hall'.
    + assert (len (decrement (largest_from kv rest) (kv :: rest))
              = len (kv :: rest)).
      { unfold len, decrement. now rewrite length_map. }
      lia.
    + split; [now rewrite Hk, decrement_keys|]. split; assumption.
Qed.

(** More fuel than the loop needs changes nothing. *)
Lemma adjust_fuel_irrelevant (fuel extra : nat) (available : Z)
      (ps : list (section * Z)) :
  NoDup (map fst ps) ->
  Forall (fun kv => 1 <= snd kv) ps ->
  sum_values ps - len ps <= Z.of_nat fuel ->
  adjust (fuel + extra) available ps = adjust fuel available ps.
Proof.
  revert ps. induction fuel as [|fuel IH]; intros ps Hnd Hall Hfuel.
  - cbn [adjust Nat.add]. destruct extra as [|extra]; [reflexivity|].
    cbn [adjust]. rewrite all_ones; [|exact Hall | lia].
    now rewrite andb_false_r.
  - cbn [adjust Nat.add].
    destruct ((available <? sum_values ps)
              && existsb (fun kv => 1 <? snd kv) ps) eqn:Econd; [|reflexivity].
    destruct ps as [|kv rest]; [reflexivity|].
    apply andb_true_iff in Econd. destruct Econd as [_ Hex].
    apply existsb_exists in Hex. destruct Hex as [x [Hx Hx1]].
    apply Z.ltb_lt in Hx1.
    destruct (largest_from_greatest rest kv) as [v [Hin Hmax]].
    specialize (Hmax x Hx).
    destruct (@decrement_one _ _ _ Hnd Hin ltac:(lia) Hall) as [Hsum Hall'].
    apply IH; [now rewrite decrement_keys | exact Hall' |].
    assert (len (decrement (largest_from kv rest) (kv :: rest))
            = len (kv :: rest)).
    { unfold len, decrement. now rewrite length_map. }
    lia.
Qed.

Lemma ones_sum (ps : list (section * Z)) :
  Forall (fun kv => 1 <= snd kv) ps ->
  existsb (fun kv => 1 <? snd kv) ps = false ->
  sum_values ps = len ps.
Proof.
  unfold sum_values, len. induction 1 as [|kv ps Hkv Hall IH]; [reflexivity|].
  cbn [existsb map fold_right length]. rewrite orb_false_iff.
  intros [H1 H2]. apply Z.ltb_ge in H1. specialize (IH H2). lia.
Qed.

Lemma share_get_positive (ps : list (section * Z)) (name : section) :
  Forall (fun kv => 1 <= snd kv) ps -> 1 <= share_get ps name 3.
Proof.
  unfold share_get. induction 1 as [|kv ps Hkv Hall IH]; simpl; [lia|].
  destruct (section_eqb (fst kv) name); [exact Hkv | exact IH].
Qed.

Section ShareFacts.
Context {R : Type}.

Local Abbreviation item := (@Kudzu.item R).

Lemma active_of_keys (sections : section -> list item) :
  NoDup (map fst (active_of sections)).
Proof.
  unfold active_of.
  assert (H : forall l : list section,
             NoDup l ->
             NoDup (map fst (filter
                      (fun ni : section * list item =>
                         match snd ni with [] => false | _ => true end)
                      (map (fun s => (s, sections s)) l)))).
  { induction 1 as [|s l Hs Hl IH]; simpl; [constructor|].
    destruct (sections s); [exact IH|]. simpl. constructor; [|exact IH].
    intros Hin. apply Hs. apply in_map_iff in Hin.
    destruct Hin as [[s' items] [<- Hin]]. apply filter_In in Hin.
    destruct Hin as [Hin _]. apply in_map_iff in Hin.
    destruct Hin as [s'' [[= <- _] Hin]]. exact Hin. }
  apply H. unfold SECTION_ORDER.
  repeat (constructor; [simpl; intuition discriminate|]). constructor.
Qed.

Lemma active_of_In (sections : section -> list item) (name : section) :
  sections name <> [] -> In (name, sections name) (active_of sections).
Proof.
  intros Hne. unfold active_of. apply filter_In. split.
  - apply in_map_iff. exists name. split; [reflexivity|].
    destruct name; simpl; tauto.
  - simpl. now destruct (sections name).
Qed.

(** The shares that the renderer uses: one for each active section, each
    at least 1, together within [available]. *)
Lemma shares_of_spec (sections : section -> list item) :
  exists per_section,
    shares_of (active_of sections) = Some per_section
    /\ map fst per_section = map fst (active_of sections)
    /\ Forall (fun kv => 1 <= snd kv) per_section
    /\ sum_values per_section <= available_for (active_of sections).
Proof.
  unfold shares_of.
  destruct (allocate_active sections) as [ps [Hps [Hkeys [Hone _]]]].
  cbv zeta in Hps. rewrite Hps.
  assert (Hnd : NoDup (map fst ps)) by (rewrite Hkeys; apply active_of_keys).
  assert (Hsum : 0 <= sum_values ps).
  { clear - Hone. unfold sum_values.
    induction Hone as [|kv l Hkv _ IH]; simpl; lia. }
  destruct (@adjust_spec (Z.to_nat (sum_values ps))
              (available_for (active_of sections)) ps Hnd Hone)
    as [Hk [Hf Hc]].
  { pose proof (len_nonneg ps). lia. }
  eexists. split; [reflexivity|]. split; [now rewrite Hk|]. split; [exact Hf|].
  apply andb_false_iff in Hc. destruct Hc as [Hc | Hc].
  - now apply Z.ltb_ge in Hc.
  - rewrite (ones_sum Hf Hc).
    assert (len (adjust (Z.to_nat (sum_values ps))
                        (available_for (active_of sections)) ps)
            = len (active_of sections)).
    { unfold len. rewrite <- (length_map fst), Hk, Hkeys, length_map.
      reflexivity. }
    pose proof (active_of_length sections).
    destruct (available_for_range sections). lia.
Qed.
End ShareFacts.

(** ** Lines without line breaks *)

Lemma forallb_rev {A : Type} (p : A -> bool) (l : list A) :
  forallb p (rev l) = forallb p l.
Proof.
  induction l as [|x l IH]; [reflexivity|].
  simpl. rewrite forallb_app, IH. simpl. rewrite andb_true_r. apply andb_comm.
Qed.

Lemma forallb_firstn {A : Type} (p : A -> bool) (n : nat) (l : list A) :
  forallb p l = true -> forallb p (firstn n l) = true.
Proof.
  revert n. induction l as [|x l IH]; intros [|n]; simpl; auto.
  rewrite !andb_true_iff. intros [-> H]. auto.
Qed.

Lemma forallb_slice_to {A : Type} (p : A -> bool) (k : Z) (l : list A) :
  forallb p l = true -> forallb p (slice_to k l) = true.
Proof. unfold slice_to. destruct (0 <=? k); apply forallb_firstn. Qed.

Lemma forallb_lstrip (p : ascii -> bool) (s : pystr) :
  forallb p s = true -> forallb p (lstrip s) = true.
Proof.
  induction s as [|c s IH]; [reflexivity|]. simpl.
  destruct (is_space c); [|trivial].
  rewrite andb_true_iff. intros [_ H]. auto.
Qed.

Lemma forallb_strip (p : ascii -> bool) (s : pystr) :
  forallb p s = true -> forallb p (strip s) = true.
Proof.
  intros H. unfold strip, rstrip. rewrite forallb_rev.
  apply forallb_lstrip. rewrite forallb_rev. now apply forallb_lstrip.
Qed.

Lemma replace_newlines_no_newline (s : pystr) :
  no_newline (replace_newlines s) = true.
Proof.
  unfold no_newline, replace_newlines. induction s as [|c s IH]; [reflexivity|].
  simpl. rewrite IH, andb_true_r.
  destruct (Ascii.eqb c newline) eqn:E; [reflexivity | now rewrite E].
Qed.

Lemma truncate_line_no_newline (text : pystr) (max_len : Z) :
  no_newline (truncate_line text max_len) = true.
Proof.
  unfold truncate_line.
  assert (H : no_newline (strip (replace_newlines text)) = true)
    by apply forallb_strip, replace_newlines_no_newline.
  destruct (_ <? _); [|exact H].
  unfold no_newline. rewrite forallb_app.
  fold (no_newline (slice_to (max_len - 3) (strip (replace_newlines text)))).
  unfold no_newline at 1. now rewrite (forallb_slice_to _ _ _ H).
Qed.

Lemma no_newline_count (line : pystr) :
  no_newline line = true -> count_occ ascii_dec line newline = 0%nat.
Proof.
  intros H. apply count_occ_not_In. intros Hin.
  unfold no_newline in H. rewrite forallb_forall in H.
  specialize (H _ Hin). now rewrite Ascii.eqb_refl in H.
Qed.

Lemma no_newline_of_not_In (line : pystr) :
  ~ In newline line -> no_newline line = true.
Proof.
  intros H. apply forallb_forall. intros c Hc.
  destruct (Ascii.eqb_spec c newline) as [-> | _]; [contradiction | reflexivity].
Qed.

(** A document of lines without line breaks has as many lines as were
    joined. *)
Lemma line_count_join (lines : list pystr) :
  lines <> [] ->
  Forall (fun line => no_newline line = true) lines ->
  line_count (join newline lines) = len lines.
Proof.
  intros Hne Hall. unfold line_count, len.
  induction Hall as [|line lines Hline Hall IH]; [contradiction|].
  destruct lines as [|line' lines].
  - simpl. now rewrite (no_newline_count _ Hline).
  - specialize (IH ltac:(discriminate)).
    change (join newline (line :: line' :: lines))
      with (line ++ newline :: join newline (line' :: lines)).
    rewrite count_occ_app, (no_newline_count _ Hline), count_occ_cons_eq
      by reflexivity.
    cbn [length] in *. lia.
Qed.

(** ** Rendering *)

Section RenderLines.
Context {R : Type}.
Variable now : pystr.

Local Abbreviation item := (@Kudzu.item R).

Lemma render_section_no_newline (per_section : list (section * Z))
      (lines : list pystr) (ni : section * list item) :
  Forall (fun line => no_newline line = true) lines ->
  Forall (fun line => no_newline line = true)
         (render_section per_section lines ni).
Proof.
  intros H. unfold render_section.
  rewrite !Forall_app. repeat split; try exact H.
  - constructor; [|constructor]. now destruct (fst ni).
  - repeat constructor.
  - apply Forall_map, Forall_forall. intros x _.
    unfold no_newline. rewrite forallb_app.
    fold (no_newline (truncate_line (fst x) 120)).
    now rewrite truncate_line_no_newline.
  - repeat constructor.
Qed.

Lemma render_fold_no_newline (per_section : list (section * Z))
      (active : list (section * list item)) (lines : list pystr) :
  Forall (fun line => no_newline line = true) lines ->
  Forall (fun line => no_newline line = true)
         (fold_left (render_section per_section) active lines).
Proof.
  revert lines. induction active as [|ni active IH]; intros lines H; simpl.
  - exact H.
  - apply IH. now apply render_section_no_newline.
Qed.

Lemma header_lines_no_newline :
  ~ In newline now ->
  Forall (fun line => no_newline line = true) (header_lines now).
Proof.
  intros H. unfold header_lines. repeat constructor.
  unfold no_newline. rewrite !forallb_app.
  fold (no_newline now). now rewrite (no_newline_of_not_In _ H).
Qed.

Lemma final_trim_spec (lines : list pystr) :
  len (final_trim lines) <= LINE_BUDGET
  /\ (LINE_BUDGET < len lines ->
      final_trim lines = slice_to (LINE_BUDGET - 1) lines ++ [TRUNCATION_NOTICE]
      /\ len (slice_to (LINE_BUDGET - 1) lines) = LINE_BUDGET - 1
      /\ len (final_trim lines) = LINE_BUDGET)
  /\ (len lines <= LINE_BUDGET -> final_trim lines = lines).
Proof.
  unfold final_trim, LINE_BUDGET.
  destruct (Z.ltb_spec 180 (len lines)) as [Hlt | Hle].
  - assert (Hs : len (slice_to (180 - 1) lines) = 179).
    { change (slice_to (180 - 1) lines) with (firstn 179 lines).
      unfold len in *. rewrite length_firstn. lia. }
    assert (Ht : len (slice_to (180 - 1) lines ++ [TRUNCATION_NOTICE]) = 180).
    { unfold len in *. rewrite length_app, Nat2Z.inj_add, Hs. reflexivity. }
    repeat split; try lia.
  - repeat split; try lia.
Qed.

Lemma render_fold_extends (per_section : list (section * Z))
      (active : list (section * list item)) (lines : list pystr) :
  exists extra,
    fold_left (render_section per_section) active lines = lines ++ extra.
Proof.
  revert lines. induction active as [|ni active IH]; intros lines; simpl.
  - exists []. now rewrite app_nil_r.
  - destruct (IH (render_section per_section lines ni)) as [extra ->].
    unfold render_section. rewrite <- app_assoc. eauto.
Qed.

(** What [render_memory_md] joins: the notice of no traces under the
    header, or the rendered lines after the final trim.  No exception is
    raised on the way. *)
Lemma render_lines_spec (sections : section -> list item) :
  exists alloc,
    rendered_lines now sections = Some alloc
    /\ render_lines now sections
       = Some (match active_of sections with
               | [] => header_lines now ++ [lit "_No traces found in Kudzu._"]
               | _ => final_trim alloc
               end)
    /\ (active_of sections = [] -> alloc = header_lines now)
    /\ exists extra, alloc = header_lines now ++ extra.
Proof.
  destruct (shares_of_spec sections) as [ps [Hps _]].
  destruct (render_fold_extends ps (active_of sections) (header_lines now))
    as [extra Hextra].
  exists (fold_left (render_section ps) (active_of sections) (header_lines now)).
  assert (Halloc : rendered_lines now sections
                   = Some (fold_left (render_section ps) (active_of sections)
                                     (header_lines now))).
  { unfold rendered_lines. now rewrite Hps. }
  split; [exact Halloc|]. split; [|split; [now intros ->|eauto]].
  unfold render_lines. rewrite Halloc. now destruct (active_of sections).
Qed.

(** C1. The document of [render_memory_md] has at most 180 lines, the
    line budget, for every sections input; when the lines rendered for the
    allocated shares exceed the budget they are cut to the first 179 and
    the truncation notice is appended once, which makes 180.  The lines of
    the document are the lines joined, the time stamp having no line
    break. *)
Theorem render_memory_md_within_budget (sections : section -> list item) :
  exists alloc lines,
    rendered_lines now sections = Some alloc
    /\ render_lines now sections = Some lines
    /\ render_memory_md now sections = Some (join newline lines)
    /\ len lines <= LINE_BUDGET
    /\ (LINE_BUDGET < len alloc ->
        lines = slice_to (LINE_BUDGET - 1) alloc ++ [TRUNCATION_NOTICE]
        /\ len (slice_to (LINE_BUDGET - 1) alloc) = LINE_BUDGET - 1
        /\ len lines = LINE_BUDGET)
    /\ (~ In newline now ->
        line_count (join newline lines) = len lines
        /\ line_count (join newline lines) <= LINE_BUDGET).
Proof.
  destruct (render_lines_spec sections) as [alloc [Halloc [Hl [Hnone Hext]]]].
  destruct (final_trim_spec alloc) as [Hle [Hcut Hsame]].
  eexists alloc, _. split; [exact Halloc|]. split; [exact Hl|].
  split; [unfold render_memory_md; now rewrite Hl|].
  destruct Hext as [extra Hext].
  destruct (active_of sections) as [|ni active] eqn:Eact.
  - rewrite (Hnone eq_refl).
    split; [discriminate|]. split.
    { intros Hbig. vm_compute in Hbig. discriminate Hbig. }
    intros Hnow. rewrite line_count_join.
    + split; [reflexivity | discriminate].
    + discriminate.
    + apply Forall_app. split; [now apply header_lines_no_newline|].
      now repeat constructor.
  - split; [exact Hle|]. split; [exact Hcut|].
    intros Hnow.
    assert (Hnn : Forall (fun line => no_newline line = true) alloc).
    { unfold rendered_lines in Halloc.
      destruct (shares_of (active_of sections)) as [ps|]; [|discriminate].
      injection Halloc as <-.
      apply render_fold_no_newline. now apply header_lines_no_newline. }
    assert (Hc : line_count (join newline (final_trim alloc))
                 = len (final_trim alloc)).
    { destruct (Z.le_gt_cases (len alloc) LINE_BUDGET) as [Hsmall | Hbig].
      - rewrite (Hsame Hsmall). apply line_count_join; [|exact Hnn].
        rewrite Hext. discriminate.
      - destruct (Hcut ltac:(lia)) as [-> _].
        apply line_count_join; [now destruct (slice_to _ alloc)|].
        apply Forall_app. split; [|now repeat constructor].
        apply Forall_forall. intros line Hline.
        rewrite Forall_forall in Hnn. apply Hnn.
        change (slice_to (LINE_BUDGET - 1) alloc) with (firstn 179 alloc) in Hline.
        rewrite <- (firstn_skipn 179 alloc). apply in_or_app. now left. }
    rewrite Hc. split; [reflexivity | exact Hle].
Qed.

(** *** Every section before the final trim *)

Lemma slice_to_head {A : Type} (k : Z) (x : A) (l : list A) :
  1 <= k -> exists l', slice_to k (x :: l) = x :: l'.
Proof.
  intros Hk. unfold slice_to. destruct (Z.leb_spec 0 k); [|lia].
  destruct (Z.to_nat k) as [|n] eqn:E; [lia|]. simpl. eauto.
Qed.

(** The block of a section with a share of at least 1: its heading, a
    blank line and the bullet of its first item. *)
Lemma render_fold_shows (per_section : list (section * Z))
      (active : list (section * list item)) (lines : list pystr)
      (name : section) (first : item) (rest : list item) :
  Forall (fun kv => 1 <= snd kv) per_section ->
  In (name, first :: rest) active ->
  exists pre post,
    fold_left (render_section per_section) active lines
    = pre ++ [lit "## " ++ section_name name; [];
              lit "- " ++ truncate_line (fst first) 120] ++ post.
Proof.
  intros Hone. revert lines.
  induction active as [|ni active IH]; intros lines Hin; [contradiction|].
  destruct Hin as [-> | Hin]; [|now apply IH].
  cbn [fold_left].
  destruct (render_fold_extends per_section active
              (render_section per_section lines (name, first :: rest)))
    as [extra ->].
  unfold render_section. cbn [fst snd].
  destruct (@slice_to_head _ (share_get per_section name 3) first rest
              (share_get_positive name Hone)) as [l' ->].
  exists lines. eexists. cbn [map]. rewrite <- !app_assoc. reflexivity.
Qed.

(** Before the final trim every active section is rendered with its
    heading and at least one bullet. *)
Lemma rendered_lines_show_every_section
      (sections : section -> list item) (name : section)
      (first : item) (rest : list item) :
  sections name = first :: rest ->
  exists alloc pre post,
    rendered_lines now sections = Some alloc
    /\ alloc = pre ++ [lit "## " ++ section_name name; [];
                       lit "- " ++ truncate_line (fst first) 120] ++ post.
Proof.
  intros Hname. unfold rendered_lines.
  destruct (shares_of_spec sections) as [ps [-> [_ [Hone _]]]].
  assert (Hin : In (name, first :: rest) (active_of sections)).
  { rewrite <- Hname. apply active_of_In. now rewrite Hname. }
  destruct (@render_fold_shows ps (active_of sections) (header_lines now)
              name first rest Hone Hin) as [pre [post H]].
  eauto.
Qed.

(** Without the final trim, so when the rendering is within the budget,
    the returned lines show every active section. *)
Lemma render_lines_show_every_section
      (sections : section -> list item) (name : section)
      (first : item) (rest : list item) (alloc : list pystr) :
  sections name = first :: rest ->
  rendered_lines now sections = Some alloc ->
  len alloc <= LINE_BUDGET ->
  exists pre post,
    render_lines now sections
    = Some (pre ++ [lit "## " ++ section_name name; [];
                    lit "- " ++ truncate_line (fst first) 120] ++ post).
Proof.
  intros Hname Halloc Hfit.
  destruct (rendered_lines_show_every_section sections name Hname)
    as [alloc' [pre [post [Ha ->]]]].
  rewrite Halloc in Ha. injection Ha as ->.
  exists pre, post. unfold render_lines.
  assert (Hin : In (name, sections name) (active_of sections))
    by (apply active_of_In; now rewrite Hname).
  destruct (active_of sections); [contradiction|].
  rewrite Halloc. f_equal.
  now apply final_trim_spec.
Qed.
Lemma slice_to_length {A : Type} (k : Z) (l : list A) :
  0 <= k -> len (slice_to k l) <= k.
Proof.
  intros Hk. unfold slice_to, len. destruct (Z.leb_spec 0 k); [|lia].
  rewrite length_firstn. lia.
Qed.

Lemma share_get_sum (ps : list (section * Z)) :
  NoDup (map fst ps) ->
  fold_right Z.add 0 (map (fun k => share_get ps k 3) (map fst ps))
  = sum_values ps.
Proof.
  unfold sum_values. induction ps as [|[k v] ps IH]; [reflexivity|].
  intros Hnd. inversion Hnd as [|? ? Hnotin Hnd']; subst.
  cbn [map fold_right fst snd]. f_equal.
  - unfold share_get. cbn [find fst snd].
    now rewrite (proj2 (section_eqb_eq k k) eq_refl).
  - rewrite <- (IH Hnd'). f_equal. apply map_ext_in.
    intros k' Hk'. unfold share_get. cbn [find fst].
    destruct (section_eqb k k') eqn:E; [|reflexivity].
    apply section_eqb_eq in E. subst k'. contradiction.
Qed.

Lemma render_fold_length (per_section : list (section * Z))
      (active : list (section * list item)) (lines : list pystr) :
  Forall (fun kv => 1 <= snd kv) per_section ->
  len (fold_left (render_section per_section) active lines)
  <= len lines + 3 * len active
     + fold_right Z.add 0
         (map (fun k => share_get per_section k 3) (map fst active)).
Proof.
  intros Hone. revert lines.
  induction active as [|ni active IH]; intros lines.
  - cbn. unfold len. simpl. lia.
  - cbn [fold_left map fold_right]. etransitivity; [apply IH|].
    assert (Hl : len (render_section per_section lines ni)
                 <= len lines + 3 + share_get per_section (fst ni) 3).
    { unfold render_section, len. rewrite !length_app, length_map.
      pose proof (share_get_positive (fst ni) Hone) as Hpos.
      pose proof (@slice_to_length _ (share_get per_section (fst ni) 3)
                    (snd ni) ltac:(lia)) as Hs.
      unfold len in Hs. cbn [length]. lia. }
    assert (Hn : len (ni :: active) = len active + 1).
    { unfold len. cbn [length]. lia. }
    lia.
Qed.

(** The rendering before the final trim can pass the budget, by at most
    one line for each active section: a section takes three lines besides
    its bullets, and [available] is reckoned with two. *)
Lemma rendered_lines_length (sections : section -> list item) :
  exists alloc,
    rendered_lines now sections = Some alloc
    /\ len alloc <= LINE_BUDGET + len (active_of sections).
Proof.
  unfold rendered_lines.
  destruct (shares_of_spec sections) as [ps [-> [Hkeys [Hone Hsum]]]].
  eexists. split; [reflexivity|].
  etransitivity; [apply (render_fold_length _ _ Hone)|].
  rewrite <- Hkeys, share_get_sum
    by (rewrite Hkeys; apply active_of_keys).
  destruct (available_for_range sections) as [_ Hav].
  change (len (header_lines now)) with 4. unfold LINE_BUDGET in *. lia.
Qed.
End RenderLines.

Lemma clock_no_newline : ~ In newline Examples.clock.
Proof.
  intros H. vm_compute in H.
  repeat (destruct H as [H | H]; [discriminate H|]). exact H.
Qed.

Lemma render_memory_md_within_budget_witness :
  exists alloc lines,
    rendered_lines Examples.clock Examples.crowded_sections = Some alloc
    /\ render_lines Examples.clock Examples.crowded_sections = Some lines
    /\ render_memory_md Examples.clock Examples.crowded_sections
       = Some (join newline lines)
    /\ len lines <= LINE_BUDGET
    /\ (LINE_BUDGET < len alloc ->
        lines = slice_to (LINE_BUDGET - 1) alloc ++ [TRUNCATION_NOTICE]
        /\ len (slice_to (LINE_BUDGET - 1) alloc) = LINE_BUDGET - 1
        /\ len lines = LINE_BUDGET)
    /\ line_count (join newline lines) = len lines
    /\ line_count (join newline lines) <= LINE_BUDGET.
Proof.
  destruct (render_memory_md_within_budget Examples.clock
              Examples.crowded_sections)
    as [alloc [lines [H1 [H2 [H3 [H4 [H5 H6]]]]]]].
  exists alloc, lines. repeat split; try assumption; try (now apply H5).
  all: now apply H6, clock_no_newline.
Defined.

(** ** The last section under the final trim *)

Lemma existsb_str_eqb_In (x : pystr) (l : list pystr) :
  existsb (str_eqb x) l = false -> ~ In x l.
Proof.
  intros H Hin.
  assert (existsb (str_eqb x) l = true); [|congruence].
  apply existsb_exists. exists x. split; [exact Hin | now apply str_eqb_eq].
Qed.

(** C2 at six active sections, five of forty items and Recent Decisions of
    one, each deduplicated and in recency order as [build_sections] leaves
    them.  The shares are 32, 32, 32, 32, 32 and 1, the rendering has 183
    lines, and the final trim to 179 lines and the notice removes the whole
    of Recent Decisions, its heading and its only bullet. *)
Theorem render_memory_md_drops_last_section :
  (forall s, deduplicate (Examples.crowded_sections s)
             = Examples.crowded_sections s
             /\ sorted_desc Z.ltb snd (Examples.crowded_sections s)
                = Examples.crowded_sections s)
  /\ Examples.crowded_sections RecentDecisions <> []
  /\ len (active_of Examples.crowded_sections)
     <= available_for (active_of Examples.crowded_sections)
  /\ shares_of (active_of Examples.crowded_sections)
     = Some [(CurrentState, 32); (ActiveProjects, 32); (KeyFacts, 32);
             (Workflows, 32); (Learnings, 32); (RecentDecisions, 1)]
  /\ exists alloc lines,
       rendered_lines Examples.clock Examples.crowded_sections = Some alloc
       /\ len alloc = 183
       /\ In (lit "## Recent Decisions") alloc
       /\ In (lit "- Switched to Postgres for storage") alloc
       /\ render_lines Examples.clock Examples.crowded_sections = Some lines
       /\ len lines = 180
       /\ ~ In (lit "## Recent Decisions") lines
       /\ ~ In (lit "- Switched to Postgres for storage") lines.
Proof.
  split; [intros []; split; vm_compute; reflexivity|].
  split; [discriminate|]. split; [discriminate|].
  split; [vm_compute; reflexivity|].
  destruct (rendered_lines Examples.clock Examples.crowded_sections)
    as [alloc|] eqn:Ealloc; [|vm_compute in Ealloc; discriminate Ealloc].
  destruct (render_lines Examples.clock Examples.crowded_sections)
    as [lines|] eqn:Elines; [|vm_compute in Elines; discriminate Elines].
  exists alloc, lines.
  vm_compute in Ealloc. injection Ealloc as <-.
  vm_compute in Elines. injection Elines as <-.
  split; [reflexivity|]. split; [reflexivity|].
  split; [do 179 right; left; reflexivity|].
  split; [do 181 right; left; reflexivity|].
  split; [reflexivity|]. split; [reflexivity|].
  split; apply existsb_str_eqb_In; vm_compute; reflexivity.
Qed.

(* ------------------------------------------------------------------ *)
(** * Further properties of the pipeline *)
(* ------------------------------------------------------------------ *)

(** ** What deduplication leaves *)

Section DedupMore.
Context {R : Type}.

Local Abbreviation item := (@Kudzu.item R).
Local Abbreviation size := (fun x : item => length (fst x)).

(** A later item is not inside an earlier one. *)
Local Abbreviation apart :=
  (fun x y : item => contains (normalize (fst y)) (normalize (fst x)) = false).

Lemma StronglySorted_snoc {A : Type} (rel : A -> A -> Prop) (l : list A) (x : A) :
  StronglySorted rel l -> Forall (fun k => rel k x) l ->
  StronglySorted rel (l ++ [x]).
Proof.
  induction 1 as [|y l Hl IH Hy]; intros Hx; simpl.
  - repeat constructor.
  - inversion Hx as [|? ? Hyx Hx']; subst. constructor; [auto|].
    apply Forall_app. split; [exact Hy | now constructor].
Qed.

Lemma StronglySorted_split {A : Type} (rel : A -> A -> Prop)
      (l1 l2 : list A) (x : A) :
  StronglySorted rel (l1 ++ x :: l2) ->
  Forall (fun k => rel k x) l1 /\ Forall (rel x) l2.
Proof.
  induction l1 as [|y l1 IH]; simpl; intros H.
  - inversion H; subst. split; [constructor | assumption].
  - inversion H as [|? ? Hs Hf]; subst. destruct (IH Hs) as [H1 H2].
    split; [|exact H2]. constructor; [|exact H1].
    rewrite Forall_app in Hf. destruct Hf as [_ Hf]. now inversion Hf.
Qed.

Lemma dedup_loop_apart (l kept : list item) :
  StronglySorted apart kept -> StronglySorted apart (dedup_loop kept l).
Proof.
  revert kept. induction l as [|[c rc] l IH]; intros kept Hk; simpl; [exact Hk|].
  destruct (is_dup (normalize c) kept) eqn:E; [now apply IH|].
  apply IH. apply StronglySorted_snoc; [exact Hk|].
  apply Forall_forall. intros k Hin. cbn [fst].
  destruct (contains (normalize c) (normalize (fst k))) eqn:Ec; [|reflexivity].
  exfalso. assert (Ht : is_dup (normalize c) kept = true); [|congruence].
  apply existsb_exists. eauto.
Qed.

Lemma deduplicate_apart (items : list item) :
  StronglySorted apart (deduplicate items)
  /\ forall x y, In x (deduplicate items) -> In y (deduplicate items) ->
       (length (fst y) < length (fst x))%nat ->
       contains (normalize (fst y)) (normalize (fst x)) = false.
Proof.
  assert (Hs : StronglySorted apart (deduplicate items)).
  { rewrite deduplicate_unfold. apply dedup_loop_apart. constructor. }
  split; [exact Hs|].
  assert (Hd : Desc size (deduplicate items)).
  { rewrite deduplicate_unfold. apply dedup_loop_Desc, sorted_desc_Desc. }
  intros x y Hx Hy Hlen.
  destruct (in_split _ _ Hx) as [l1 [l2 E]]. rewrite E in *.
  destruct (StronglySorted_split _ _ _ Hs) as [_ Hafter].
  destruct (StronglySorted_split _ _ _ Hd) as [Hbefore _].
  apply in_app_or in Hy. destruct Hy as [Hy | [<- | Hy]].
  - rewrite Forall_forall in Hbefore. specialize (Hbefore y Hy).
    simpl in Hbefore. lia.
  - lia.
  - rewrite Forall_forall in Hafter. now apply Hafter.
Qed.

(** X1. Of two items that [deduplicate] returns, the later is never inside
    the earlier after normalization; so a strictly shorter content is
    never inside a longer one. *)
Theorem deduplicate_leaves_no_contained (items : list item) :
  StronglySorted apart (deduplicate items)
  /\ forall x y, In x (deduplicate items) -> In y (deduplicate items) ->
       (length (fst y) < length (fst x))%nat ->
       contains (normalize (fst y)) (normalize (fst x)) = false.
Proof. apply deduplicate_apart. Qed.

Lemma deduplicate_covers (items : list item) (x : item) :
  In x items ->
  In x (deduplicate items)
  \/ exists y, In y (deduplicate items)
               /\ (length (fst x) <= length (fst y))%nat
               /\ contains (normalize (fst x)) (normalize (fst y)) = true.
Proof.
  intros Hx. rewrite deduplicate_unfold.
  apply dedup_loop_covers_longer; [apply sorted_desc_Desc|].
  eapply Permutation_in; [apply sorted_desc_perm | exact Hx].
Qed.

(** X2. Nothing is lost without a representative: every input item is in
    the output or lies, after normalization, inside an output item that
    is at least as long. *)
Theorem deduplicate_covers_input (items : list item) (x : item) :
  In x items ->
  In x (deduplicate items)
  \/ exists y, In y (deduplicate items)
               /\ (length (fst x) <= length (fst y))%nat
               /\ contains (normalize (fst x)) (normalize (fst y)) = true.
Proof. apply deduplicate_covers. Qed.

(** X3. The output is in descending order of content length and is no
    longer than the input; it is empty only for the empty input. *)
Theorem deduplicate_longest_first (items : list item) :
  Desc size (deduplicate items)
  /\ (length (deduplicate items) <= length items)%nat
  /\ (deduplicate items = [] -> items = []).
Proof.
  split; [rewrite deduplicate_unfold; apply dedup_loop_Desc, sorted_desc_Desc|].
  destruct (dedup_loop_removes (sorted_desc Nat.ltb size items) [])
    as [removed Hp].
  rewrite <- deduplicate_unfold in Hp. simpl in Hp.
  pose proof (sorted_desc_perm size items) as Hs.
  split.
  - rewrite (Permutation_length Hs), (Permutation_length Hp), length_app. lia.
  - intros E. destruct items as [|i items]; [reflexivity|].
    destruct (@sorted_desc_head _ size (i :: items) ltac:(discriminate))
      as [h [rest [Hh _]]].
    rewrite deduplicate_unfold, Hh in E. destruct h as [c rc]. simpl in E.
    destruct (dedup_loop_extends rest [(c, rc)]) as [r Hr].
    rewrite Hr in E. discriminate E.
Qed.
End DedupMore.

Lemma deduplicate_covers_input_witness :
  exists y, In y (deduplicate Examples.rsync_items)
            /\ contains (normalize (lit "Use rsync to deploy"))
                        (normalize (fst y)) = true.
Proof.
  destruct (@deduplicate_covers_input Z Examples.rsync_items
              (Examples.entry "Use rsync to deploy" 1))
    as [H | [y [Hy [_ Hc]]]].
  - vm_compute. tauto.
  - exists (Examples.entry "Use rsync to deploy" 1).
    split; [exact H | vm_compute; reflexivity].
  - exists y. split; [exact Hy | exact Hc].
Defined.

(** ** Single bullet lines *)

Lemma lstrip_head (s : pystr) (c : ascii) (s' : pystr) :
  lstrip s = c :: s' -> is_space c = false.
Proof.
  induction s as [|d s IH]; simpl; [discriminate|].
  destruct (is_space d) eqn:E; [exact IH|]. now intros [= <- _].
Qed.

Lemma lstrip_fixed (s : pystr) :
  match s with [] => True | c :: _ => is_space c = false end -> lstrip s = s.
Proof. destruct s as [|c s]; simpl; [reflexivity|]. now intros ->. Qed.

Lemma lstrip_idempotent (s : pystr) : lstrip (lstrip s) = lstrip s.
Proof.
  apply lstrip_fixed. destruct (lstrip s) as [|c s'] eqn:E; [exact I|].
  exact (lstrip_head _ E).
Qed.

(** Taking trailing whitespace off leaves the first character where it is,
    unless nothing remains. *)
Lemma lstrip_rev_head (c : ascii) (s : pystr) :
  is_space c = false -> exists s', rev (lstrip (rev (c :: s))) = c :: s'.
Proof.
  intros Hc. simpl rev.
  assert (H : forall r : pystr, exists r', lstrip (r ++ [c]) = r' ++ [c]).
  { induction r as [|d r IH]; simpl.
    - rewrite Hc. now exists [].
    - destruct (is_space d); [exact IH | now exists (d :: r)]. }
  destruct (H (rev s)) as [r' ->]. rewrite rev_app_distr. simpl. eauto.
Qed.

Lemma strip_head (s : pystr) (c : ascii) (s' : pystr) :
  strip s = c :: s' -> is_space c = false.
Proof.
  unfold strip, rstrip. destruct (lstrip s) as [|d t] eqn:E; [discriminate|].
  pose proof (lstrip_head _ E) as Hd.
  destruct (@lstrip_rev_head d t Hd) as [t' ->]. now intros [= <- _].
Qed.

Lemma strip_idempotent (s : pystr) : strip (strip s) = strip s.
Proof.
  unfold strip at 1.
  rewrite (lstrip_fixed (strip s)).
  - unfold strip, rstrip. now rewrite rev_involutive, lstrip_idempotent.
  - destruct (strip s) as [|c s'] eqn:E; [exact I|]. exact (strip_head _ E).
Qed.

Lemma replace_newlines_fixed (s : pystr) :
  no_newline s = true -> replace_newlines s = s.
Proof.
  unfold no_newline, replace_newlines.
  induction s as [|c s IH]; [reflexivity|]. simpl.
  rewrite andb_true_iff, negb_true_iff. intros [-> H]. now rewrite IH.
Qed.

Lemma truncate_line_length (text : pystr) (max_len : Z) :
  3 <= max_len -> len (truncate_line text max_len) <= max_len.
Proof.
  intros Hm. unfold truncate_line.
  destruct (Z.ltb_spec max_len (len (strip (replace_newlines text))));
    [|assumption].
  unfold len, slice_to in *. destruct (Z.leb_spec 0 (max_len - 3)); [|lia].
  rewrite length_app, length_firstn. simpl length. lia.
Qed.

Lemma truncate_line_stripped (text : pystr) (max_len : Z) :
  3 <= max_len ->
  strip (truncate_line text max_len) = truncate_line text max_len.
Proof.
  intros Hm. unfold truncate_line.
  set (t := strip (replace_newlines text)).
  destruct (Z.ltb_spec max_len (len t)) as [Hlong | _];
    [|apply strip_idempotent].
  unfold slice_to. destruct (Z.leb_spec 0 (max_len - 3)); [|lia].
  set (k := Z.to_nat (max_len - 3)).
  assert (Hl : lstrip (firstn k t ++ lit "...") = firstn k t ++ lit "...").
  { apply lstrip_fixed. destruct t as [|c t'] eqn:Et.
    - now rewrite firstn_nil.
    - pose proof (strip_head _ Et) as Hc.
      destruct k; simpl; [reflexivity | exact Hc]. }
  unfold strip, rstrip. rewrite Hl, rev_app_distr.
  change (rev (lit "...")) with (lit "...").
  change (lstrip (lit "..." ++ rev (firstn k t)))
    with (lit "..." ++ rev (firstn k t)).
  rewrite rev_app_distr, rev_involutive. reflexivity.
Qed.

(** X4. With [max_len >= 3] the result of [truncate_line] is one line of
    at most [max_len] characters without whitespace at either end; a
    text cut short ends in the three dots and has exactly [max_len]
    characters. *)
Theorem truncate_line_bounds (text : pystr) (max_len : Z) :
  3 <= max_len ->
  len (truncate_line text max_len) <= max_len
  /\ no_newline (truncate_line text max_len) = true
  /\ strip (truncate_line text max_len) = truncate_line text max_len
  /\ (max_len < len (strip (replace_newlines text)) ->
      len (truncate_line text max_len) = max_len
      /\ exists kept, truncate_line text max_len = kept ++ lit "...").
Proof.
  intros Hm. split; [now apply truncate_line_length|].
  split; [apply truncate_line_no_newline|].
  split; [now apply truncate_line_stripped|].
  intros Hlong. unfold truncate_line.
  destruct (Z.ltb_spec max_len (len (strip (replace_newlines text)))); [|lia].
  split; [|eauto].
  unfold len, slice_to in *. destruct (Z.leb_spec 0 (max_len - 3)); [|lia].
  rewrite length_app, length_firstn. simpl length. lia.
Qed.

Lemma truncate_line_bounds_witness :
  len (truncate_line (lit "  a note
over two lines  ") 12) = 12
  /\ no_newline (truncate_line (lit "  a note
over two lines  ") 12) = true.
Proof.
  destruct (@truncate_line_bounds (lit "  a note
over two lines  ") 12) as [_ [Hn [_ Hcut]]]; [discriminate|].
  split; [|exact Hn]. apply Hcut. reflexivity.
Defined.

(** X5. Truncating a truncated line again changes nothing. *)
Theorem truncate_line_idempotent (text : pystr) (max_len : Z) :
  3 <= max_len ->
  truncate_line (truncate_line text max_len) max_len
  = truncate_line text max_len.
Proof.
  intros Hm.
  pose proof (@truncate_line_length text max_len Hm) as Hlen.
  pose proof (@truncate_line_stripped text max_len Hm) as Hs.
  pose proof (truncate_line_no_newline text max_len) as Hn.
  set (r := truncate_line text max_len) in *.
  unfold truncate_line at 1. rewrite (replace_newlines_fixed _ Hn), Hs.
  destruct (Z.ltb_spec max_len (len r)); [lia | reflexivity].
Qed.

Lemma truncate_line_idempotent_witness :
  truncate_line (truncate_line (lit "  a note
over two lines  ") 12) 12
  = truncate_line (lit "  a note
over two lines  ") 12.
Proof. apply truncate_line_idempotent. discriminate. Defined.

(** ** Content extraction, all cases *)




(** ** Building the sections *)

Section BuildFacts.
Variable py_str : pyval -> pystr.

Lemma add_trace_spec (sections : sections_t) (trace : pydict) (s : section) :
  add_trace py_str sections trace s
  = sections s
    ++ (if kept_trace py_str trace && section_eqb (trace_section py_str trace) s
        then [trace_item py_str trace] else []).
Proof.
  unfold add_trace, kept_trace, trace_section, trace_item.
  set (content := extract_content py_str trace).
  rewrite <- orb_assoc, orb_diag.
  destruct (match content with [] => true | _ => false end
            || str_eqb content (lit "{}")); cbn [negb andb].
  - now rewrite app_nil_r.
  - unfold sections_append.
    destruct (section_eqb s (categorize_trace trace content)) eqn:E.
    + apply section_eqb_eq in E. subst s.
      now rewrite (proj2 (section_eqb_eq _ _) eq_refl).
    + destruct (section_eqb (categorize_trace trace content) s) eqn:E';
        [|now rewrite app_nil_r].
      apply section_eqb_eq in E'. subst s.
      now rewrite (proj2 (section_eqb_eq _ _) eq_refl) in E.
Qed.

Lemma fold_add_trace (traces : list pydict) (sections : sections_t)
      (s : section) :
  fold_left (add_trace py_str) traces sections s
  = sections s
    ++ map (trace_item py_str)
           (filter (fun t => kept_trace py_str t
                             && section_eqb (trace_section py_str t) s)
                   traces).
Proof.
  revert sections. induction traces as [|t traces IH]; intros sections; simpl.
  - now rewrite app_nil_r.
  - rewrite IH, add_trace_spec, <- app_assoc. f_equal.
    now destruct (kept_trace py_str t
                  && section_eqb (trace_section py_str t) s).
Qed.

Lemma one_section (x : section) :
  fold_right Z.add 0
    (map (fun s => if section_eqb x s then 1 else 0) SECTION_ORDER) = 1.
Proof. now destruct x. Qed.

Lemma collect_sections_count (traces : list pydict) :
  (forall s,
     collect_sections py_str traces s
     = map (trace_item py_str)
           (filter (fun t => kept_trace py_str t
                             && section_eqb (trace_section py_str t) s)
                   traces))
  /\ fold_right Z.add 0
       (map (fun s => len (collect_sections py_str traces s)) SECTION_ORDER)
     = len (filter (kept_trace py_str) traces).
Proof.
  assert (Hform : forall s,
     collect_sections py_str traces s
     = map (trace_item py_str)
           (filter (fun t => kept_trace py_str t
                             && section_eqb (trace_section py_str t) s)
                   traces)).
  { intros s. unfold collect_sections. now rewrite fold_add_trace. }
  split; [exact Hform|].
  rewrite (map_ext _ _ (fun s => f_equal len (Hform s))).
  clear Hform. unfold len.
  induction traces as [|t traces IH]; [reflexivity|].
  cbn [filter]. destruct (kept_trace py_str t); cbn [andb].
  - pose proof (one_section (trace_section py_str t)) as H1.
    unfold SECTION_ORDER in *. cbn [map fold_right] in *.
    repeat match goal with
           | |- context [section_eqb ?a ?b] => destruct (section_eqb a b)
           end; cbn [filter map length] in *; lia.
  - exact IH.
Qed.

(** X7. Every trace whose content is neither empty nor "{}" becomes one
    item of exactly one section, the one [categorize_trace] names, and no
    other trace becomes an item: a section collects, in trace order, the
    items of its kept traces, and the sections together hold as many items
    as there are kept traces. *)
Theorem collect_sections_partition (traces : list pydict) :
  (forall s,
     collect_sections py_str traces s
     = map (trace_item py_str)
           (filter (fun t => kept_trace py_str t
                             && section_eqb (trace_section py_str t) s)
                   traces))
  /\ fold_right Z.add 0
       (map (fun s => len (collect_sections py_str traces s)) SECTION_ORDER)
     = len (filter (kept_trace py_str) traces).
Proof. apply collect_sections_count. Qed.
End BuildFacts.

(** ** Sorting by recency *)

Section SortedAny.
Context {A K : Type} (ltb : K -> K -> bool) (key : A -> K) (dom : K -> Prop).

Hypothesis ltb_asym :
  forall a b, dom a -> dom b -> ltb a b = true -> ltb b a = false.
Hypothesis ltb_negtrans :
  forall a b c, dom a -> dom b -> dom c ->
    ltb a b = false -> ltb b c = false -> ltb a c = false.

Local Abbreviation ordered :=
  (StronglySorted (fun x y : A => ltb (key x) (key y) = false)).

Lemma insert_desc_perm_any (x : A) (l : list A) :
  Permutation (x :: l) (insert_desc ltb key x l).
Proof.
  induction l as [|y l IH]; simpl; [reflexivity|].
  destruct (ltb (key x) (key y)); [|reflexivity].
  rewrite perm_swap. now constructor.
Qed.

Lemma sorted_desc_perm_any (l : list A) :
  Permutation l (sorted_desc ltb key l).
Proof.
  induction l as [|x l IH]; simpl; [reflexivity|].
  rewrite <- insert_desc_perm_any. now constructor.
Qed.

Lemma insert_desc_ordered (x : A) (l : list A) :
  dom (key x) -> Forall (fun y => dom (key y)) l ->
  ordered l -> ordered (insert_desc ltb key x l).
Proof.
  intros Hx Hdom Hl. induction Hl as [|y l Hl IH Hy]; simpl.
  - repeat constructor.
  - inversion Hdom as [|? ? Hdy Hdom']; subst.
    destruct (ltb (key x) (key y)) eqn:E.
    + constructor; [now apply IH|].
      rewrite <- insert_desc_perm_any. constructor; [|exact Hy].
      now apply ltb_asym.
    + constructor; [now constructor|]. constructor; [exact E|].
      rewrite Forall_forall in *. intros z Hz.
      apply (ltb_negtrans Hx Hdy (Hdom' z Hz) E (Hy z Hz)).
Qed.

Lemma sorted_desc_ordered (l : list A) :
  Forall (fun y => dom (key y)) l -> ordered (sorted_desc ltb key l).
Proof.
  induction 1 as [|x l Hx Hl IH]; simpl; [constructor|].
  apply insert_desc_ordered; [exact Hx | | exact IH].
  rewrite <- sorted_desc_perm_any. exact Hl.
Qed.
End SortedAny.

Lemma xval_ltb_asym (x y : xval) :
  xval_ltb x y = true -> xval_ltb y x = false.
Proof.
  intros H. destruct (xval_ltb y x) eqn:E; [|reflexivity].
  now rewrite <- (xval_ltb_irrefl x), (xval_ltb_trans _ _ _ H E).
Qed.

Lemma dy_compare_not_lt (E m1 e1 m2 e2 : Z) :
  E <= e1 -> E <= e2 ->
  (dy_compare m1 e1 m2 e2 <> Lt <-> m2 * 2 ^ (e2 - E) <= m1 * 2 ^ (e1 - E)).
Proof.
  intros H1 H2. rewrite (@dy_compare_scale E m1 e1 m2 e2 H1 H2). lia.
Qed.

Lemma xval_ltb_negtrans (x y z : xval) :
  x <> XNan -> y <> XNan -> z <> XNan ->
  xval_ltb x y = false -> xval_ltb y z = false -> xval_ltb x z = false.
Proof.
  destruct x as [|[]|m1 e1], y as [|[]|m2 e2], z as [|[]|m3 e3];
    simpl; try congruence.
  intros _ _ _ H12 H23.
  set (E := Z.min e1 (Z.min e2 e3)).
  assert (H1 : dy_compare m1 e1 m2 e2 <> Lt)
    by (destruct (dy_compare m1 e1 m2 e2); congruence).
  assert (H2 : dy_compare m2 e2 m3 e3 <> Lt)
    by (destruct (dy_compare m2 e2 m3 e3); congruence).
  apply (@dy_compare_not_lt E) in H1; [|lia|lia].
  apply (@dy_compare_not_lt E) in H2; [|lia|lia].
  assert (H3 : dy_compare m1 e1 m3 e3 <> Lt)
    by (apply (@dy_compare_not_lt E); lia).
  destruct (dy_compare m1 e1 m3 e3); congruence.
Qed.

Section BuildOrder.
Variable py_str : pyval -> pystr.

Lemma collect_sections_form (traces : list pydict) (s : section) :
  collect_sections py_str traces s
  = map (trace_item py_str)
        (filter (fun t => kept_trace py_str t
                          && section_eqb (trace_section py_str t) s)
                traces).
Proof. unfold collect_sections. now rewrite fold_add_trace. Qed.

Lemma build_sections_perm (traces : list pydict) (s : section) :
  Permutation (deduplicate (collect_sections py_str traces s))
              (build_sections py_str traces s).
Proof. unfold build_sections. apply sorted_desc_perm_any. Qed.

(** An item of a built section is the item of a kept trace of that
    section. *)
Lemma build_sections_origin (traces : list pydict) (s : section)
      (x : pystr * pyval) :
  In x (build_sections py_str traces s) ->
  exists t, In t traces /\ kept_trace py_str t = true
            /\ trace_section py_str t = s /\ x = trace_item py_str t.
Proof.
  intros Hx.
  apply (Permutation_in _ (Permutation_sym (build_sections_perm traces s)))
    in Hx.
  apply deduplicate_subset in Hx. rewrite collect_sections_form in Hx.
  apply in_map_iff in Hx. destruct Hx as [t [<- Ht]].
  apply filter_In in Ht. destruct Ht as [Ht Hk].
  apply andb_true_iff in Hk. destruct Hk as [Hk Hs].
  apply section_eqb_eq in Hs. eauto.
Qed.

Lemma build_sections_desc (traces : list pydict) :
  (forall t, In t traces -> comparable (extract_recency t)) ->
  forall s, RecencyDesc (build_sections py_str traces s).
Proof.
  intros Hcmp s. unfold RecencyDesc, build_sections, py_lt.
  apply (@sorted_desc_ordered _ _
           (fun a b => xval_ltb (num_value a) (num_value b))
           (fun x : @item pyval => snd x) comparable).
  - intros a b _ _. apply xval_ltb_asym.
  - intros a b c Ha Hb Hc. now apply xval_ltb_negtrans.
  - apply Forall_forall. intros x Hx.
    apply deduplicate_subset in Hx. rewrite collect_sections_form in Hx.
    apply in_map_iff in Hx. destruct Hx as [t [<- Ht]].
    apply filter_In in Ht. apply Hcmp. tauto.
Qed.

(** X8. When the recency scores of the traces are comparable (none is a
    NaN), every section that [build_sections] returns is in descending
    order of recency: no item is less recent than one after it. *)
Theorem build_sections_most_recent_first (traces : list pydict) :
  (forall t, In t traces -> comparable (extract_recency t)) ->
  forall s, RecencyDesc (build_sections py_str traces s).
Proof. apply build_sections_desc. Qed.

(** X9. A section that [build_sections] returns holds the deduplicated
    items of its kept traces and nothing else: each of its items comes
    from a kept trace of the section, no shorter content in it lies inside
    a longer one after normalization, and every kept trace of the section
    has its item in it or inside an item of it that is at least as long. *)
Theorem build_sections_deduplicated (traces : list pydict) (s : section) :
  Permutation (deduplicate (collect_sections py_str traces s))
              (build_sections py_str traces s)
  /\ (forall x, In x (build_sections py_str traces s) ->
        exists t, In t traces /\ kept_trace py_str t = true
                  /\ trace_section py_str t = s /\ x = trace_item py_str t)
  /\ (forall x y, In x (build_sections py_str traces s) ->
        In y (build_sections py_str traces s) ->
        (length (fst y) < length (fst x))%nat ->
        contains (normalize (fst y)) (normalize (fst x)) = false)
  /\ (forall t, In t traces -> kept_trace py_str t = true ->
        trace_section py_str t = s ->
        exists y, In y (build_sections py_str traces s)
                  /\ (length (extract_content py_str t) <= length (fst y))%nat
                  /\ contains (normalize (extract_content py_str t))
                              (normalize (fst y)) = true).
Proof.
  pose proof (build_sections_perm traces s) as Hp.
  split; [exact Hp|]. split; [apply build_sections_origin|]. split.
  - intros x y Hx Hy.
    apply (Permutation_in _ (Permutation_sym Hp)) in Hx.
    apply (Permutation_in _ (Permutation_sym Hp)) in Hy.
    exact (proj2 (deduplicate_apart _) x y Hx Hy).
  - intros t Ht Hk Hs.
    assert (Hin : In (trace_item py_str t) (collect_sections py_str traces s)).
    { rewrite collect_sections_form. apply in_map, filter_In.
      split; [exact Ht|]. rewrite Hk, Hs.
      now rewrite (proj2 (section_eqb_eq s s) eq_refl). }
    destruct (deduplicate_covers _ _ Hin) as [H | [y [Hy [Hlen Hc]]]].
    + exists (trace_item py_str t). split; [exact (Permutation_in _ Hp H)|].
      split; [reflexivity | apply contains_refl].
    + exists y. split; [exact (Permutation_in _ Hp Hy)|]. now split.
Qed.
End BuildOrder.

Lemma build_sections_most_recent_first_witness :
  RecencyDesc (build_sections Examples.no_str Examples.decision_traces
                              RecentDecisions).
Proof.
  apply (@build_sections_most_recent_first Examples.no_str
           Examples.decision_traces).
  intros t Ht. vm_compute in Ht.
  destruct Ht as [<- | [<- | [<- | []]]]; vm_compute; discriminate.
Defined.

(** ** The rendered document *)

Section RenderMore.
Context {R : Type}.
Variable now : pystr.

Local Abbreviation item := (@Kudzu.item R).

Lemma render_fold_form (per_section : list (section * Z))
      (active : list (section * list item)) (lines : list pystr) :
  fold_left (render_section per_section) active lines
  = lines ++ flat_map (section_block per_section) active.
Proof.
  revert lines. induction active as [|ni active IH]; intros lines; simpl.
  - now rewrite app_nil_r.
  - rewrite IH. unfold render_section, section_block.
    now rewrite <- !app_assoc.
Qed.

Lemma rendered_lines_form (sections : section -> list item) :
  exists per_section,
    shares_of (active_of sections) = Some per_section
    /\ Forall (fun kv => 1 <= snd kv) per_section
    /\ rendered_lines now sections
       = Some (header_lines now
               ++ flat_map (section_block per_section) (active_of sections)).
Proof.
  destruct (shares_of_spec sections) as [ps [Hps [_ [Hone _]]]].
  exists ps. split; [exact Hps|]. split; [exact Hone|].
  unfold rendered_lines. now rewrite Hps, render_fold_form.
Qed.

Lemma filter_firstn {A : Type} (f : A -> bool) (n : nat) (l : list A) :
  exists k, filter f (firstn n l) = firstn k (filter f l).
Proof.
  revert n. induction l as [|x l IH]; intros n.
  - exists 0%nat. now rewrite firstn_nil.
  - destruct n as [|n]; [now exists 0%nat|]. simpl.
    destruct (IH n) as [k Hk]. destruct (f x).
    + exists (S k). simpl. now rewrite Hk.
    + now exists k.
Qed.

Lemma section_block_headings (per_section : list (section * Z))
      (active : list (section * list item)) :
  filter is_heading (flat_map (section_block per_section) active)
  = map (fun ni => lit "## " ++ section_name (fst ni)) active.
Proof.
  induction active as [|ni active IH]; [reflexivity|].
  cbn [flat_map map]. rewrite filter_app, IH. f_equal.
  unfold section_block. rewrite !filter_app.
  assert (Hb : forall l : list item,
            filter is_heading
              (map (fun x : item => lit "- " ++ truncate_line (fst x) 120) l)
            = []).
  { induction l as [|x l IHl]; [reflexivity|]. simpl. exact IHl. }
  rewrite Hb. now destruct (fst ni).
Qed.

Lemma active_of_names (sections : section -> list item) :
  map fst (active_of sections)
  = filter (fun s => match sections s with [] => false | _ => true end)
           SECTION_ORDER.
Proof.
  unfold active_of. induction SECTION_ORDER as [|s l IH]; [reflexivity|].
  simpl. destruct (sections s); simpl; now rewrite IH.
Qed.

(** X10. The headings of the document are those of the non-empty
    sections, each once and in the order of [SECTION_ORDER], whatever the
    items are; after a final trim they are an initial part of them. *)
Theorem render_headings_in_order (sections : section -> list item) :
  exists alloc lines,
    rendered_lines now sections = Some alloc
    /\ render_lines now sections = Some lines
    /\ filter is_heading alloc
       = map (fun s => lit "## " ++ section_name s)
             (filter (fun s => match sections s with [] => false | _ => true end)
                     SECTION_ORDER)
    /\ exists k, filter is_heading lines = firstn k (filter is_heading alloc).
Proof.
  destruct (rendered_lines_form sections) as [ps [_ [_ Halloc]]].
  destruct (render_lines_spec now sections) as [alloc [Ha [Hl _]]].
  rewrite Halloc in Ha. injection Ha as <-.
  eexists _, _. split; [exact Halloc|]. split; [exact Hl|].
  assert (Hh : filter is_heading
                 (header_lines now
                  ++ flat_map (section_block ps) (active_of sections))
               = map (fun s => lit "## " ++ section_name s)
                     (map fst (active_of sections))).
  { rewrite filter_app, section_block_headings, map_map. reflexivity. }
  split; [now rewrite Hh, active_of_names|].
  destruct (active_of sections) as [|ni active] eqn:E.
  - exists 0%nat. reflexivity.
  - rewrite <- E in *. unfold final_trim.
    destruct (LINE_BUDGET <? len _).
    + unfold slice_to. cbn [Z.leb LINE_BUDGET Z.sub].
      rewrite filter_app. cbn [filter TRUNCATION_NOTICE].
      rewrite app_nil_r. apply filter_firstn.
    + exists (length (filter is_heading
                (header_lines now
                 ++ flat_map (section_block ps) (active_of sections)))).
      now rewrite firstn_all.
Qed.
End RenderMore.

(** ** Inputs that fit the budget *)

Section RenderSmall.
Context {R : Type}.
Variable now : pystr.

Local Abbreviation item := (@Kudzu.item R).

Lemma adjust_fits (fuel : nat) (available : Z) (ps : list (section * Z)) :
  sum_values ps <= available -> adjust fuel available ps = ps.
Proof.
  intros H. destruct fuel as [|fuel]; [reflexivity|]. cbn [adjust].
  destruct (Z.ltb_spec available (sum_values ps)); [lia | reflexivity].
Qed.

Lemma floor_quot_covers (available k t : Z) :
  1 <= k -> 0 < t <= available -> k <= available * k / t.
Proof. intros Hk Ht. apply Z.div_le_lower_bound; nia. Qed.

Lemma floor_share_covers (available k t : Z) :
  1 <= k -> 0 < t <= available -> k <= Z.max 1 (available * k / t).
Proof. intros Hk Ht. pose proof (floor_quot_covers Hk Ht). lia. Qed.

Lemma floor_shares_sum (available t : Z) (active : list (section * list item)) :
  0 < t <= available ->
  (forall ni, In ni active -> 1 <= len (snd ni)) ->
  t * sum_values (floor_shares available t active)
  <= available * total_items_of active.
Proof.
  intros Ht. unfold sum_values, floor_shares, total_items_of.
  induction active as [|ni active IH]; intros Hpos;
    cbn [map fold_right fst snd]; [lia|].
  assert (H1 : 1 <= len (snd ni)) by (apply Hpos; now left).
  assert (IH' := IH (fun x Hx => Hpos x (or_intror Hx))).
  pose proof (floor_quot_covers H1 Ht) as Hc.
  pose proof (Z.mul_div_le (available * len (snd ni)) t ltac:(lia)) as Hd.
  rewrite Z.max_r by lia. nia.
Qed.

Lemma share_get_floor (available t : Z) (active : list (section * list item))
      (ni : section * list item) :
  NoDup (map fst active) -> In ni active ->
  share_get (floor_shares available t active) (fst ni) 3
  = Z.max 1 (available * len (snd ni) / t).
Proof.
  unfold share_get, floor_shares.
  induction active as [|x active IH]; [contradiction|].
  intros Hnd Hin. inversion Hnd as [|? ? Hnotin Hnd']; subst.
  cbn [map find fst].
  destruct (section_eqb (fst x) (fst ni)) eqn:E.
  - apply section_eqb_eq in E. destruct Hin as [-> | Hin]; [reflexivity|].
    exfalso. apply Hnotin. rewrite E. now apply in_map.
  - destruct Hin as [-> | Hin]; [|now apply IH].
    now rewrite (proj2 (section_eqb_eq _ _) eq_refl) in E.
Qed.

Lemma slice_to_all {A : Type} (k : Z) (l : list A) :
  len l <= k -> slice_to k l = l.
Proof.
  unfold slice_to, len. intros H. destruct (Z.leb_spec 0 k); [|lia].
  apply firstn_all2. lia.
Qed.

Lemma active_of_nonempty (sections : section -> list item)
      (ni : section * list item) :
  In ni (active_of sections) -> 1 <= len (snd ni).
Proof.
  unfold active_of. rewrite filter_In. intros [_ H].
  destruct (snd ni); [discriminate|]. unfold len. simpl length. lia.
Qed.

Lemma flat_map_ext_in {A B : Type} (f g : A -> list B) (l : list A) :
  (forall x, In x l -> f x = g x) -> flat_map f l = flat_map g l.
Proof.
  induction l as [|x l IH]; intros H; [reflexivity|].
  cbn [flat_map]. rewrite (H x (or_introl eq_refl)), IH; [reflexivity|].
  intros y Hy. apply H. now right.
Qed.

Lemma full_blocks_length (active : list (section * list item)) :
  len (flat_map (@full_block R) active)
  = 3 * len active + total_items_of active.
Proof.
  unfold len, total_items_of. induction active as [|ni active IH]; [reflexivity|].
  cbn [flat_map map fold_right]. unfold full_block at 1.
  rewrite !length_app, length_map. cbn [length]. unfold len in *. lia.
Qed.

Lemma render_complete_small_aux (sections : section -> list item) :
  active_of sections <> [] ->
  total_items_of (active_of sections) <= 176 - 3 * len (active_of sections) ->
  render_lines now sections
  = Some (header_lines now ++ flat_map (@full_block R) (active_of sections))
  /\ len (header_lines now ++ flat_map (@full_block R) (active_of sections))
     <= LINE_BUDGET.
Proof.
  intros Hne Hsmall.
  set (active := active_of sections) in *.
  pose proof (active_of_length sections) as Hn. fold active in Hn.
  destruct (available_for_range sections) as [_ Hav]. fold active in Hav.
  unfold LINE_BUDGET in Hav.
  assert (Hn1 : 1 <= len active).
  { destruct active; [contradiction|]. unfold len. simpl length. lia. }
  assert (Htpos : 0 < total_items_of active).
  { destruct active as [|ni rest] eqn:E; [contradiction|].
    pose proof (@total_items_bound R (ni :: rest) ni (or_introl eq_refl)).
    assert (1 <= len (snd ni)).
    { apply (active_of_nonempty sections). fold active. rewrite E. now left. }
    lia. }
  assert (Ht : 0 < total_items_of active <= available_for active) by lia.
  destruct (allocate_active sections) as [ps [Hps [_ [_ Hfloor]]]].
  fold active in Hps, Hfloor.
  assert (Hlt : total_items_of active < 2 ^ 46).
  { apply Z.le_lt_trans with 176; [lia | reflexivity]. }
  specialize (Hfloor Hlt). subst ps.
  set (fs := floor_shares (available_for active) (total_items_of active) active)
    in *.
  assert (Hsum : sum_values fs <= available_for active).
  { pose proof (@floor_shares_sum _ _ active Ht
                  (active_of_nonempty sections)) as H. fold fs in H. nia. }
  assert (Hshares : shares_of active = Some fs).
  { unfold shares_of. fold active fs in Hps. rewrite Hps.
    now rewrite (adjust_fits _ _ Hsum). }
  assert (Hblocks : flat_map (section_block fs) active
                    = flat_map (@full_block R) active).
  { pose proof (active_of_keys sections) as Hnd. fold active in Hnd.
    assert (Hall : forall ni, In ni active ->
                     section_block fs ni = full_block ni).
    { intros ni Hni. unfold section_block, full_block, fs.
      rewrite (@share_get_floor _ _ active ni Hnd Hni), slice_to_all; [reflexivity|].
      apply floor_share_covers; [|exact Ht].
      apply (active_of_nonempty sections). exact Hni. }
    now apply flat_map_ext_in. }
  assert (Hlen : len (header_lines now ++ flat_map (@full_block R) active)
                 <= LINE_BUDGET).
  { unfold len. rewrite length_app, Nat2Z.inj_add.
    change (Z.of_nat (length (header_lines now))) with 4.
    fold (len (flat_map (@full_block R) active)).
    rewrite full_blocks_length. unfold LINE_BUDGET. lia. }
  split; [|exact Hlen].
  unfold render_lines, rendered_lines. fold active.
  rewrite Hshares, render_fold_form, Hblocks.
  destruct active; [contradiction|]. f_equal.
  now apply final_trim_spec.
Qed.

(** X11. When the active sections hold at most [176 - 3 n] items, [n]
    the number of active sections (so always when they hold at most 158),
    the document shows each and every item: it is the header followed by
    the full block of every active section, and nothing is trimmed. *)
Theorem render_complete_when_small (sections : section -> list item) :
  active_of sections <> [] ->
  total_items_of (active_of sections) <= 176 - 3 * len (active_of sections) ->
  render_lines now sections
  = Some (header_lines now ++ flat_map (@full_block R) (active_of sections))
  /\ len (header_lines now ++ flat_map (@full_block R) (active_of sections))
     <= LINE_BUDGET.
Proof. apply render_complete_small_aux. Qed.
End RenderSmall.

Lemma render_complete_when_small_witness :
  render_lines Examples.clock Examples.small_sections
  = Some (header_lines Examples.clock
          ++ flat_map (@full_block Z) (active_of Examples.small_sections)).
Proof.
  apply (@render_complete_when_small Z Examples.clock Examples.small_sections);
    [discriminate | vm_compute; discriminate].
Defined.

(** ** Shares after the shrinking loop *)

Lemma decrement_shrinks (k : section) (ps : list (section * Z)) :
  Forall2 (fun a b => fst a = fst b /\ snd b <= snd a) ps (decrement k ps).
Proof.
  induction ps as [|kv ps IH]; simpl; constructor; [|exact IH].
  destruct (section_eqb (fst kv) k); simpl; split; try reflexivity; lia.
Qed.

Lemma adjust_shrinks (fuel : nat) (available : Z) (ps : list (section * Z)) :
  Forall2 (fun a b => fst a = fst b /\ snd b <= snd a)
          ps (adjust fuel available ps).
Proof.
  assert (Hrefl : forall l : list (section * Z),
            Forall2 (fun a b => fst a = fst b /\ snd b <= snd a) l l).
  { induction l; constructor; [split; [reflexivity | lia] | assumption]. }
  assert (Htrans : forall l1 l2 l3 : list (section * Z),
            Forall2 (fun a b => fst a = fst b /\ snd b <= snd a) l1 l2 ->
            Forall2 (fun a b => fst a = fst b /\ snd b <= snd a) l2 l3 ->
            Forall2 (fun a b => fst a = fst b /\ snd b <= snd a) l1 l3).
  { intros l1 l2 l3 H12. revert l3.
    induction H12 as [|a b l1 l2 Hab _ IH]; intros l3 H23;
      inversion H23 as [|b' c l2' l3' Hbc H23']; subst; constructor;
      [|now apply IH].
    destruct Hab, Hbc. split; [congruence | lia]. }
  revert ps. induction fuel as [|fuel IH]; intros ps; cbn [adjust];
    [apply Hrefl|].
  destruct (_ && _); [|apply Hrefl].
  destruct ps as [|kv rest]; [apply Hrefl|].
  eapply Htrans; [apply decrement_shrinks | apply IH].
Qed.

Lemma shrinks_above_one (l1 l2 : list (section * Z)) :
  Forall2 (fun a b => fst a = fst b /\ snd b <= snd a) l1 l2 ->
  Forall (fun kv => 1 <= snd kv) l2 ->
  Forall2 (fun a b => fst a = fst b /\ 1 <= snd b <= snd a) l1 l2.
Proof.
  induction 1 as [|a b l1 l2 Hab _ IH]; intros Hone; constructor.
  - inversion Hone; subst. destruct Hab. split; [assumption | lia].
  - apply IH. now inversion Hone.
Qed.

Section SharesMore.
Context {R : Type}.
Variable now : pystr.

Local Abbreviation item := (@Kudzu.item R).

(** X12. The shrinking loop only lowers shares: the final share of every
    active section is between 1 and its allocated share, the shares
    together fit into [available], and shares that fit from the start are
    left as allocated. *)
Theorem shares_shrink_to_fit (sections : section -> list item) :
  exists allocated per_section,
    allocate (available_for (active_of sections))
             (total_items_of (active_of sections)) (active_of sections)
    = Some allocated
    /\ shares_of (active_of sections) = Some per_section
    /\ map fst per_section = map fst (active_of sections)
    /\ Forall2 (fun a b => fst a = fst b /\ 1 <= snd b <= snd a)
               allocated per_section
    /\ sum_values per_section <= available_for (active_of sections)
    /\ (sum_values allocated <= available_for (active_of sections) ->
        per_section = allocated).
Proof.
  destruct (allocate_active sections) as [ps0 [Hps0 _]]. cbv zeta in Hps0.
  destruct (shares_of_spec sections) as [ps [Hps [Hkeys [Hone Hsum]]]].
  exists ps0, ps. split; [exact Hps0|]. split; [exact Hps|].
  split; [exact Hkeys|].
  unfold shares_of in Hps. rewrite Hps0 in Hps. injection Hps as <-.
  split; [|split; [exact Hsum | intros Hfit; now apply adjust_fits]].
  apply shrinks_above_one; [apply adjust_shrinks | exact Hone].
Qed.

(** ** Width of the lines *)

Lemma Forall_firstn_any {A : Type} (P : A -> Prop) (n : nat) (l : list A) :
  Forall P l -> Forall P (firstn n l).
Proof.
  intros H. rewrite <- (firstn_skipn n l) in H.
  apply Forall_app in H. tauto.
Qed.

Lemma section_block_width (per_section : list (section * Z))
      (active : list (section * list item)) :
  Forall (fun line => len line <= 122)
         (flat_map (section_block per_section) active).
Proof.
  apply Forall_flat_map, Forall_forall. intros ni _.
  unfold section_block. rewrite !Forall_app. repeat split.
  - repeat constructor; [now destruct (fst ni) | discriminate].
  - apply Forall_map, Forall_forall. intros x _.
    pose proof (@truncate_line_length (fst x) 120 ltac:(lia)) as H.
    unfold len in *. rewrite length_app. simpl length. lia.
  - repeat constructor. discriminate.
Qed.

(** X13. Every line of the document other than the time stamp line has at
    most 122 characters: a bullet is the dash, a blank and at most 120
    characters of content. *)
Theorem render_lines_width (sections : section -> list item) :
  exists lines,
    render_lines now sections = Some lines
    /\ Forall (fun line => len line <= 122 \/ line = stamp_line now) lines.
Proof.
  destruct (rendered_lines_form now sections) as [ps [_ [_ Halloc]]].
  destruct (render_lines_spec now sections) as [alloc [Ha [Hl _]]].
  rewrite Halloc in Ha. injection Ha as <-.
  eexists. split; [exact Hl|].
  assert (Hhead : Forall (fun line => len line <= 122 \/ line = stamp_line now)
                         (header_lines now)).
  { unfold header_lines.
    constructor; [left; discriminate|]. constructor; [left; discriminate|].
    constructor; [now right|]. constructor; [left; discriminate|].
    constructor. }
  assert (Hall : Forall (fun line => len line <= 122 \/ line = stamp_line now)
                   (header_lines now
                    ++ flat_map (section_block ps) (active_of sections))).
  { apply Forall_app. split; [exact Hhead|].
    eapply Forall_impl; [|apply section_block_width]. intros; now left. }
  destruct (active_of sections).
  - apply Forall_app. split; [exact Hhead|].
    constructor; [left; discriminate | constructor].
  - unfold final_trim. destruct (LINE_BUDGET <? len _); [|exact Hall].
    apply Forall_app. split.
    + unfold slice_to. destruct (0 <=? LINE_BUDGET - 1);
        now apply Forall_firstn_any.
    + constructor; [left; discriminate | constructor].
Qed.
End SharesMore.

(** ** From the traces to the document *)

Lemma deduplicate_length {R : Type} (items : list (@item R)) :
  len (deduplicate items) <= len items.
Proof.
  rewrite deduplicate_unfold.
  set (srt := sorted_desc Nat.ltb (fun x : @item R => length (fst x)) items).
  destruct (dedup_loop_removes srt []) as [removed Hp].
  pose proof (sorted_desc_perm (fun x : @item R => length (fst x)) items)
    as Hs.
  fold srt in Hs.
  apply Permutation_length in Hs, Hp. rewrite !length_app in Hp.
  cbn [length] in Hp. unfold len. lia.
Qed.

Lemma total_items_active {R : Type} (sections : section -> list (pystr * R)) :
  total_items_of (active_of sections)
  = fold_right Z.add 0 (map (fun s => len (sections s)) SECTION_ORDER).
Proof.
  unfold total_items_of, active_of.
  induction SECTION_ORDER as [|s l IH]; [reflexivity|].
  cbn [map filter snd]. destruct (sections s) eqn:E.
  - rewrite IH. reflexivity.
  - cbn [map fold_right snd]. now rewrite IH.
Qed.

Section Document.
Variable py_str : pyval -> pystr.
Variable now : pystr.

Lemma build_sections_total (traces : list pydict) :
  total_items_of (active_of (build_sections py_str traces)) <= len traces.
Proof.
  rewrite total_items_active.
  apply Z.le_trans with (len (filter (kept_trace py_str) traces)).
  - rewrite <- (proj2 (collect_sections_count py_str traces)).
    unfold SECTION_ORDER. cbn [map fold_right].
    assert (H : forall s, len (build_sections py_str traces s)
                          <= len (collect_sections py_str traces s)).
    { intros s. unfold len.
      rewrite <- (Permutation_length (build_sections_perm py_str traces s)).
      apply deduplicate_length. }
    pose proof (H CurrentState). pose proof (H ActiveProjects).
    pose proof (H KeyFacts). pose proof (H Workflows).
    pose proof (H Learnings). pose proof (H RecentDecisions).
    unfold sections_t, Kudzu.item in *. lia.
  - unfold len. pose proof (filter_length_le (kept_trace py_str) traces). lia.
Qed.

(** X14. With at most 158 traces fetched, as with the three holograms at
    their limit of 50 each, the written document leaves nothing out: it is
    the header and, for every non-empty section in order, the heading and
    a bullet for each deduplicated item; without any item it is the header
    and the notice that no traces were found. *)
Theorem context_document_complete (all_traces : list pydict) :
  len all_traces <= 158 ->
  context_document py_str now all_traces
  = Some (join newline
            (header_lines now
             ++ match active_of (build_sections py_str all_traces) with
                | [] => [lit "_No traces found in Kudzu._"]
                | active => flat_map (@full_block pyval) active
                end)).
Proof.
  intros Hfew. unfold context_document, render_memory_md.
  destruct (active_of (build_sections py_str all_traces)) as [|ni active] eqn:E.
  - unfold render_lines. now rewrite E.
  - rewrite <- E.
    destruct (@render_complete_small_aux pyval now
                (build_sections py_str all_traces)) as [-> _];
      [rewrite E; discriminate | | reflexivity].
    pose proof (build_sections_total all_traces).
    pose proof (active_of_length (build_sections py_str all_traces)). lia.
Qed.
End Document.

Lemma context_document_complete_witness :
  context_document Examples.no_str Examples.clock Examples.decision_traces
  = Some (join newline
            (header_lines Examples.clock
             ++ match active_of (build_sections Examples.no_str
                                                Examples.decision_traces) with
                | [] => [lit "_No traces found in Kudzu._"]
                | active => flat_map (@full_block pyval) active
                end)).
Proof.
  apply (@context_document_complete Examples.no_str Examples.clock
           Examples.decision_traces).
  discriminate.
Defined.

(** ** Hologram ids *)

Lemma lstrip_length (s : pystr) : (length (lstrip s) <= length s)%nat.
Proof.
  induction s as [|c s IH]; simpl; [lia|].
  destruct (is_space c); simpl; lia.
Qed.

Lemma lstrip_full (s : pystr) :
  length (lstrip s) = length s -> lstrip s = s.
Proof.
  destruct s as [|c s]; simpl; [reflexivity|].
  destruct (is_space c); [|reflexivity].
  pose proof (lstrip_length s). simpl. lia.
Qed.

(** A string that [strip] leaves alone has no white space at either end. *)
Lemma strip_fixed_ends (s : pystr) :
  strip s = s -> lstrip s = s /\ lstrip (rev s) = rev s.
Proof.
  unfold strip, rstrip. intros H.
  assert (Hl : lstrip s = s).
  { apply lstrip_full. apply (f_equal (@length ascii)) in H.
    rewrite length_rev in H.
    pose proof (lstrip_length (rev (lstrip s))) as H1.
    rewrite length_rev in H1. pose proof (lstrip_length s). lia. }
  split; [exact Hl|]. rewrite Hl in H.
  apply (f_equal (@rev ascii)) in H. now rewrite rev_involutive in H.
Qed.

Lemma lstrip_app_fixed (a b : pystr) :
  lstrip a = a -> a <> [] -> lstrip (a ++ b) = a ++ b.
Proof.
  destruct a as [|c a]; [congruence|]. simpl. intros H _.
  destruct (is_space c); [|reflexivity].
  pose proof (lstrip_length a) as Hlen. rewrite H in Hlen. simpl in Hlen. lia.
Qed.

Lemma lstrip_one_line (s : pystr) : one_line s -> one_line (lstrip s).
Proof.
  unfold one_line. induction 1 as [|c s Hc Hs IH]; simpl; [constructor|].
  destruct (is_space c); [exact IH | now constructor].
Qed.

Lemma strip_one_line (s : pystr) : one_line s -> one_line (strip s).
Proof.
  intros H. unfold strip, rstrip. apply Forall_rev. apply lstrip_one_line.
  apply Forall_rev. now apply lstrip_one_line.
Qed.

Lemma strip_clean (s : pystr) : one_line s -> clean (strip s).
Proof.
  intros H. split; [apply strip_idempotent | now apply strip_one_line].
Qed.

Lemma split_once_spec (sep : ascii) (s before behind : pystr) :
  split_once sep s = Some (before, behind) ->
  s = before ++ sep :: behind /\ ~ In sep before.
Proof.
  revert before. induction s as [|c s IH]; simpl; intros before; [discriminate|].
  destruct (Ascii.eqb c sep) eqn:E.
  - apply Ascii.eqb_eq in E. intros [= <- <-]. subst. now split.
  - destruct (split_once sep s) as [[a b]|]; [|discriminate].
    intros [= <- <-]. destruct (IH a eq_refl) as [-> Hn]. split; [reflexivity|].
    intros [->|Hin]; [|now apply Hn]. now rewrite Ascii.eqb_refl in E.
Qed.

(** Every line of [splitlines] is free of line boundaries. *)
Lemma splitlines_from_one_line (text line : pystr) (after_cr : bool) :
  one_line line -> Forall one_line (splitlines_from after_cr line text).
Proof.
  revert line after_cr. induction text as [|c text IH]; intros line after_cr Hl.
  - destruct line; simpl; [constructor | constructor; [exact Hl | constructor]].
  - cbn [splitlines_from].
    destruct (Ascii.eqb c newline && after_cr); [now apply IH|].
    destruct (is_linebreak c) eqn:E.
    + constructor; [exact Hl | apply IH; constructor].
    + apply IH. apply Forall_app. split; [exact Hl | now repeat constructor].
Qed.

Lemma splitlines_line (s line rest : pystr) :
  one_line s ->
  splitlines_from false line (s ++ newline :: rest)
  = (line ++ s) :: splitlines_from false [] rest.
Proof.
  intros Hs. revert line. induction Hs as [|c s Hc Hs IH]; intros line.
  - simpl. now rewrite app_nil_r.
  - cbn [app splitlines_from]. rewrite andb_false_r, Hc, IH.
    now rewrite <- app_assoc.
Qed.

(** Lines joined by line feeds, with a last line feed, split into the
    same lines. *)
Lemma splitlines_join (lines : list pystr) :
  Forall one_line lines -> lines <> [] ->
  splitlines (join newline lines ++ [newline]) = lines.
Proof.
  unfold splitlines. induction 1 as [|p rest Hp Hrest IH]; [congruence|].
  intros _. destruct rest as [|q rest].
  - simpl join. now rewrite splitlines_line.
  - change (join newline (p :: q :: rest))
      with (p ++ newline :: join newline (q :: rest)).
    rewrite <- app_assoc. cbn [app]. rewrite splitlines_line by exact Hp.
    rewrite IH by discriminate. reflexivity.
Qed.

Lemma dict_set_keys (d : pydict) (key : pystr) (v : pyval) :
  dict_mem d key = true -> map fst (dict_set d key v) = map fst d.
Proof.
  unfold dict_mem. induction d as [|kv d IH]; simpl; [discriminate|].
  destruct (str_eqb (fst kv) key); simpl; [reflexivity|].
  intros H. now rewrite IH.
Qed.

Lemma dict_set_Forall (P : pystr * pyval -> Prop) (d : pydict)
      (key : pystr) (v : pyval) :
  Forall P d -> (forall k, P (k, v)) -> Forall P (dict_set d key v).
Proof.
  intros Hd Hv. induction Hd as [|kv d Hkv Hd IH]; simpl.
  - repeat constructor. apply Hv.
  - destruct (str_eqb (fst kv) key); constructor; auto.
Qed.

Lemma dict_set_In (d : pydict) (key : pystr) (v : pyval) (k : pystr) (x : pyval) :
  In (k, x) (dict_set d key v) -> x = v \/ In (k, x) d.
Proof.
  induction d as [|kv d IH]; simpl.
  - intros [[= _ <-]|[]]. now left.
  - destruct (str_eqb (fst kv) key); simpl.
    + intros [[= _ <-]|H]; [now left | now right; right].
    + intros [H|H]; [now right; left|]. destruct (IH H); auto.
Qed.

Lemma dict_mem_keys (d : pydict) (key : pystr) :
  In key (map fst d) -> dict_mem d key = true.
Proof.
  unfold dict_mem. intros H. apply in_map_iff in H. destruct H as [kv [<- H]].
  apply existsb_exists. exists kv. split; [exact H|]. now apply str_eqb_eq.
Qed.

Lemma load_line_clean (ids : pydict) (line : pystr) :
  clean_ids ids -> one_line line -> clean_ids (load_line ids line).
Proof.
  intros [Hk Hv] Hl. unfold load_line. cbv zeta.
  destruct (contains (lit "=") (strip line)); [|now split].
  destruct (split_once "=" (strip line)) as [[key value]|] eqn:E; [|now split].
  destruct (dict_mem ids key) eqn:Hm; [|now split].
  apply split_once_spec in E. destruct E as [E _].
  assert (Hval : one_line value).
  { pose proof (strip_one_line Hl) as H. rewrite E in H.
    apply Forall_app in H. destruct H as [_ H]. now inversion H. }
  split.
  - now rewrite dict_set_keys.
  - apply dict_set_Forall; [exact Hv|]. intros k. exists (strip value).
    split; [reflexivity | now apply strip_clean].
Qed.

Lemma no_ids_clean : clean_ids no_ids.
Proof.
  split; [reflexivity|].
  repeat constructor; exists []; (split; [reflexivity|]); split;
    first [reflexivity | constructor].
Qed.

Lemma load_clean (state_file : option pystr) :
  clean_ids (load_hologram_ids state_file).
Proof.
  destruct state_file as [text|]; simpl; [|exact no_ids_clean].
  assert (H : Forall one_line (splitlines text)).
  { apply splitlines_from_one_line. constructor. }
  revert H. generalize no_ids_clean. generalize no_ids.
  induction (splitlines text) as [|line lines IH]; intros ids Hids H; simpl.
  - exact Hids.
  - inversion H; subst. apply IH; [now apply load_line_clean | assumption].
Qed.

(** X15. Whatever the state file holds, [load_hologram_ids] returns the
    three keys MEMORY_ID, RESEARCH_ID and LEARNING_ID in this order, each
    with a string that has no white space at either end and no line
    boundary in it. *)
Theorem load_hologram_ids_clean (state_file : option pystr) :
  clean_ids (load_hologram_ids state_file).
Proof. apply load_clean. Qed.

Lemma clean_ids_form (ids : pydict) :
  clean_ids ids ->
  exists m r l, ids = [(lit "MEMORY_ID", VStr m); (lit "RESEARCH_ID", VStr r);
                       (lit "LEARNING_ID", VStr l)]
                /\ clean m /\ clean r /\ clean l.
Proof.
  intros [Hk Hv].
  destruct ids as [|[k1 v1] [|[k2 v2] [|[k3 v3] [|? ?]]]]; try discriminate Hk.
  injection Hk as -> -> ->.
  inversion Hv as [|? ? [m [Hm Cm]] Hv1]; subst.
  inversion Hv1 as [|? ? [r [Hr Cr]] Hv2]; subst.
  inversion Hv2 as [|? ? [l [Hl Cl]] _]; subst.
  simpl in Hm, Hr, Hl. subst. now exists m, r, l.
Qed.

Lemma load_line_assign (ids : pydict) (key v : pystr) :
  In key ID_KEYS -> clean v -> v <> [] -> dict_mem ids key = true ->
  load_line ids (key ++ lit "=" ++ v) = dict_set ids key (VStr v).
Proof.
  intros Hkey [Hs Hl] Hv Hm.
  destruct (strip_fixed_ends Hs) as [_ Hr].
  assert (Hline : strip (key ++ lit "=" ++ v) = key ++ lit "=" ++ v).
  { unfold strip, rstrip. rewrite (lstrip_fixed (key ++ lit "=" ++ v)).
    - rewrite !rev_app_distr, <- app_assoc.
      rewrite lstrip_app_fixed; [| exact Hr |].
      + now rewrite app_assoc, <- !rev_app_distr, rev_involutive.
      + intros E. apply (f_equal (@rev ascii)) in E.
        rewrite rev_involutive in E. now apply Hv.
    - destruct Hkey as [<-|[<-|[<-|[]]]]; reflexivity. }
  unfold load_line. cbv zeta. rewrite Hline.
  assert (Hc : contains (lit "=") (key ++ lit "=" ++ v) = true).
  { apply contains_spec. now exists key, v. }
  rewrite Hc.
  assert (Hsp : split_once "=" (key ++ lit "=" ++ v) = Some (key, v)).
  { destruct Hkey as [<-|[<-|[<-|[]]]]; reflexivity. }
  rewrite Hsp, Hm, Hs. reflexivity.
Qed.

Lemma id_line_one_line (key v : pystr) :
  In key ID_KEYS -> one_line v -> Forall one_line (id_line key v).
Proof.
  intros Hkey Hv. destruct v as [|c v]; [constructor|].
  repeat constructor. apply Forall_app. split.
  - destruct Hkey as [<-|[<-|[<-|[]]]]; repeat constructor.
  - constructor; [reflexivity | exact Hv].
Qed.

Lemma load_id_line (ids : pydict) (key v : pystr) :
  In key ID_KEYS -> clean v -> dict_mem ids key = true ->
  fold_left load_line (id_line key v) ids
  = match v with [] => ids | _ => dict_set ids key (VStr v) end.
Proof.
  intros Hkey Hv Hm. destruct v as [|c v]; [reflexivity|].
  simpl. now apply load_line_assign.
Qed.

Section SaveLoad.
Variable py_str : pyval -> pystr.

Lemma save_form (m r l : pystr) :
  save_hologram_ids py_str
    [(lit "MEMORY_ID", VStr m); (lit "RESEARCH_ID", VStr r);
     (lit "LEARNING_ID", VStr l)]
  = join newline (id_line (lit "LEARNING_ID") l ++ id_line (lit "MEMORY_ID") m
                  ++ id_line (lit "RESEARCH_ID") r) ++ [newline].
Proof. destruct m, r, l; reflexivity. Qed.

Lemma save_load (ids : pydict) :
  clean_ids ids ->
  load_hologram_ids (Some (save_hologram_ids py_str ids)) = ids.
Proof.
  intros H. destruct (clean_ids_form H) as [m [r [l [-> [Cm [Cr Cl]]]]]].
  rewrite save_form. cbn [load_hologram_ids].
  set (lines := id_line (lit "LEARNING_ID") l ++ id_line (lit "MEMORY_ID") m
                ++ id_line (lit "RESEARCH_ID") r).
  assert (Hone : Forall one_line lines).
  { unfold lines. rewrite !Forall_app.
    repeat split; apply id_line_one_line;
      solve [ apply Cm | apply Cr | apply Cl
            | unfold ID_KEYS; simpl; tauto ]. }
  destruct lines as [|p lines'] eqn:E.
  - destruct l, m, r; try discriminate E. reflexivity.
  - rewrite splitlines_join by (assumption || discriminate).
    rewrite <- E. unfold lines. rewrite !fold_left_app.
    assert (K1 : In (lit "LEARNING_ID") ID_KEYS) by (unfold ID_KEYS; simpl; tauto).
    assert (K2 : In (lit "MEMORY_ID") ID_KEYS) by (unfold ID_KEYS; simpl; tauto).
    assert (K3 : In (lit "RESEARCH_ID") ID_KEYS) by (unfold ID_KEYS; simpl; tauto).
    rewrite (load_id_line _ K1 Cl) by reflexivity.
    rewrite (load_id_line _ K2 Cm) by (destruct l; reflexivity).
    rewrite (load_id_line _ K3 Cr) by (destruct l, m; reflexivity).
    clear. destruct l, m, r; reflexivity.
Qed.

(** X16. Saving and loading is a round trip: for hologram ids whose
    three values are strings without line boundaries and without white
    space at their ends (empty ones included), loading the content that
    [save_hologram_ids] writes gives the same ids back. *)
Theorem save_load_round_trip (ids : pydict) :
  clean_ids ids ->
  load_hologram_ids (Some (save_hologram_ids py_str ids)) = ids.
Proof. apply save_load. Qed.

End SaveLoad.

Lemma save_load_round_trip_witness :
  clean_ids Examples.some_ids /\
  load_hologram_ids (Some (save_hologram_ids Examples.no_str Examples.some_ids))
  = Examples.some_ids.
Proof.
  assert (H : clean_ids Examples.some_ids).
  { split; [reflexivity|].
    repeat constructor; eexists; (split; [reflexivity|]); split;
      solve [vm_compute; reflexivity | repeat constructor]. }
  split; [exact H | exact (save_load_round_trip Examples.no_str H)].
Defined.

Lemma discover_loop_keys (holograms : list pyval) (ids : pydict) :
  map fst ids = ID_KEYS -> map fst (discover_loop ids holograms) = ID_KEYS.
Proof.
  revert ids. induction holograms as [|h rest IH]; intros ids Hk; [exact Hk|].
  destruct h as [| | | | | |d]; try exact Hk. cbn [discover_loop].
  destruct (dict_get d (lit "purpose") (VStr [])) as [| | | |p| |];
    try exact Hk; try (apply IH; exact Hk).
  destruct (find _ purpose_map) as [kv|] eqn:E; [|now apply IH].
  apply IH. rewrite dict_set_keys; [exact Hk|].
  apply dict_mem_keys. rewrite Hk. apply find_some in E. destruct E as [E _].
  destruct E as [<-|[<-|[<-|[]]]]; unfold ID_KEYS; simpl; tauto.
Qed.

Lemma discover_keys (api_holograms : option pyval) :
  map fst (discover_hologram_ids api_holograms) = ID_KEYS.
Proof.
  destruct api_holograms as [[| | | | | |data]|]; try reflexivity.
  cbn [discover_hologram_ids].
  destruct (dict_get data (lit "holograms") (VList [])); try reflexivity.
  now apply discover_loop_keys.
Qed.

Lemma dict_set_In_key (d : pydict) (key : pystr) (v : pyval)
      (k : pystr) (x : pyval) :
  In (k, x) (dict_set d key v) -> (k = key /\ x = v) \/ In (k, x) d.
Proof.
  induction d as [|kv d IH]; simpl.
  - intros [[= <- <-]|[]]. now left.
  - destruct (str_eqb (fst kv) key) eqn:E; simpl.
    + apply str_eqb_eq in E.
      intros [[= <- <-]|H]; [now left | now right; right].
    + intros [H|H]; [now right; left|]. destruct (IH H); auto.
Qed.

Lemma discover_loop_origin (all holograms : list pyval) (ids : pydict) :
  (forall h, In h holograms -> In h all) ->
  (forall k x, In (k, x) ids -> x <> VStr [] -> listed all k x) ->
  forall k x, In (k, x) (discover_loop ids holograms) -> x <> VStr [] ->
              listed all k x.
Proof.
  revert ids. induction holograms as [|h rest IH]; intros ids Hall Hids;
    [exact Hids|].
  assert (Hrest : forall h', In h' rest -> In h' all)
    by (intros h' Hh; apply Hall; now right).
  destruct h as [| | | | | |d]; try exact Hids. cbn [discover_loop].
  destruct (dict_get d (lit "purpose") (VStr [])) as [| | | |p| |] eqn:Ep;
    try exact Hids; try (apply IH; assumption).
  destruct (find _ purpose_map) as [kv|] eqn:E; [|now apply IH].
  apply IH; [exact Hrest|]. intros k x Hin Hx.
  apply dict_set_In_key in Hin. destruct Hin as [[-> ->]|Hin]; [|now apply Hids].
  apply find_some in E. destruct E as [Hkv E]. simpl in E.
  apply str_eqb_eq in E. subst p.
  exists d, (fst kv). repeat split.
  - apply Hall. now left.
  - exact Ep.
  - now destruct kv.
Qed.

Lemma discover_origin (api_holograms : option pyval) (key : pystr) (v : pyval) :
  In (key, v) (discover_hologram_ids api_holograms) -> v <> VStr [] ->
  exists data holograms,
    api_holograms = Some (VDict data) /\
    dict_get data (lit "holograms") (VList []) = VList holograms /\
    listed holograms key v.
Proof.
  assert (Hno : forall k x, In (k, x) no_ids -> x <> VStr [] -> False).
  { intros k x Hin Hx. destruct Hin as [E|[E|[E|[]]]];
      injection E as _ <-; now apply Hx. }
  destruct api_holograms as [[| | | | | |data]|];
    try (intros H1 H2; now destruct (Hno _ _ H1 H2)).
  cbn [discover_hologram_ids].
  destruct (dict_get data (lit "holograms") (VList [])) as [| | | | |hs|] eqn:E;
    try (intros H1 H2; now destruct (Hno _ _ H1 H2)).
  intros H1 H2. exists data, hs. repeat split; [exact E|].
  apply (@discover_loop_origin hs hs no_ids); auto.
  intros k x Hin Hx. now destruct (Hno _ _ Hin Hx).
Qed.

(** X17. Discovery invents nothing: a non-empty value that
    [discover_hologram_ids] returns under a key is the "id" of a hologram
    of the API's list whose "purpose" is the purpose of that key
    (claude_memory for MEMORY_ID, claude_research for RESEARCH_ID,
    claude_learning for LEARNING_ID); without a decoded mapping from the
    API every value is empty. *)
Theorem discover_hologram_ids_origin (api_holograms : option pyval)
        (key : pystr) (v : pyval) :
  In (key, v) (discover_hologram_ids api_holograms) -> v <> VStr [] ->
  exists data holograms,
    api_holograms = Some (VDict data) /\
    dict_get data (lit "holograms") (VList []) = VList holograms /\
    listed holograms key v.
Proof. apply discover_origin. Qed.

Lemma discover_hologram_ids_origin_witness :
  In (lit "RESEARCH_ID", VStr (lit "h-res"))
     (discover_hologram_ids (Some Examples.hologram_listing)) /\
  exists data holograms,
    Some Examples.hologram_listing = Some (VDict data) /\
    dict_get data (lit "holograms") (VList []) = VList holograms /\
    listed holograms (lit "RESEARCH_ID") (VStr (lit "h-res")).
Proof.
  assert (H : In (lit "RESEARCH_ID", VStr (lit "h-res"))
                 (discover_hologram_ids (Some Examples.hologram_listing))).
  { vm_compute. right. left. reflexivity. }
  split; [exact H|].
  apply (@discover_hologram_ids_origin _ _ _ H). discriminate.
Defined.

Section GetIds.
Variable py_str : pyval -> pystr.

Lemma keys_form (d : pydict) :
  map fst d = ID_KEYS ->
  exists a b c, d = [(lit "MEMORY_ID", a); (lit "RESEARCH_ID", b);
                     (lit "LEARNING_ID", c)].
Proof.
  intros Hk.
  destruct d as [|[k1 v1] [|[k2 v2] [|[k3 v3] [|? ?]]]]; try discriminate Hk.
  injection Hk as -> -> ->. now exists v1, v2, v3.
Qed.

Lemma dict_get_set (d : pydict) (k : pystr) (v : pyval) (k' : pystr)
      (dflt : pyval) :
  dict_mem d k = true ->
  dict_get (dict_set d k v) k' dflt
  = if str_eqb k k' then v else dict_get d k' dflt.
Proof.
  unfold dict_mem, dict_get. induction d as [|kv d IH]; simpl; [discriminate|].
  destruct (str_eqb (fst kv) k) eqn:E; simpl.
  - intros _. apply str_eqb_eq in E. rewrite E.
    now destruct (str_eqb k k').
  - intros H. destruct (str_eqb (fst kv) k') eqn:E'.
    + destruct (str_eqb k k') eqn:E''; [|reflexivity].
      apply str_eqb_eq in E', E''. subst.
      rewrite (proj2 (str_eqb_eq _ _) eq_refl) in E. discriminate.
    + now apply IH.
Qed.

Lemma merge_key_get (discovered ids : pydict) (k k' : pystr) :
  dict_mem ids k = true ->
  dict_get (merge_key discovered ids k) k' VNone
  = if str_eqb k k'
    then prefer (dict_get ids k VNone) (dict_get discovered k VNone)
    else dict_get ids k' VNone.
Proof.
  intros Hm. unfold merge_key, prefer.
  destruct (truthy (dict_get ids k VNone)) eqn:Ta;
    destruct (truthy (dict_get discovered k VNone)) eqn:Tb; simpl;
    rewrite ?dict_get_set by exact Hm;
    destruct (str_eqb k k') eqn:E; try reflexivity;
    apply str_eqb_eq in E; now subst.
Qed.

Lemma merge_key_keys (discovered ids : pydict) (k : pystr) :
  dict_mem ids k = true ->
  map fst (merge_key discovered ids k) = map fst ids.
Proof.
  intros Hm. unfold merge_key.
  destruct (negb _ && _); [now apply dict_set_keys | reflexivity].
Qed.

Lemma merge_fold (discovered : pydict) (k' : pystr) (ks : list pystr) :
  NoDup ks ->
  forall ids : pydict,
    (forall k, In k ks -> In k (map fst ids)) ->
    map fst (fold_left (merge_key discovered) ks ids) = map fst ids /\
    dict_get (fold_left (merge_key discovered) ks ids) k' VNone
    = if existsb (fun k => str_eqb k k') ks
      then prefer (dict_get ids k' VNone) (dict_get discovered k' VNone)
      else dict_get ids k' VNone.
Proof.
  induction 1 as [|k ks Hk Hnd IH]; intros ids Hin; [now split|].
  assert (Hm : dict_mem ids k = true)
    by (apply dict_mem_keys, Hin; now left).
  cbn [fold_left existsb].
  destruct (IH (merge_key discovered ids k)) as [IHk IHv].
  { intros k0 H0. rewrite merge_key_keys by exact Hm. apply Hin. now right. }
  rewrite IHk, IHv, merge_key_keys, !merge_key_get by exact Hm.
  split; [reflexivity|].
  destruct (str_eqb k k') eqn:E; [|reflexivity].
  apply str_eqb_eq in E. subst k'.
  destruct (existsb (fun k0 => str_eqb k0 k) ks) eqn:Ex; [|reflexivity].
  apply existsb_exists in Ex. destruct Ex as [k0 [H0 E0]].
  apply str_eqb_eq in E0. subst k0. contradiction.
Qed.

Lemma all_truthy_get (ids : pydict) (key : pystr) :
  forallb truthy (dict_values ids) = true -> In key (map fst ids) ->
  truthy (dict_get ids key VNone) = true.
Proof.
  unfold dict_values, dict_get. induction ids as [|kv ids IH]; simpl; [tauto|].
  rewrite andb_true_iff. intros [Hv Hrest] Hin.
  destruct (str_eqb (fst kv) key) eqn:E; [exact Hv|].
  apply IH; [exact Hrest|]. destruct Hin as [Hin|Hin]; [|exact Hin].
  rewrite (proj2 (str_eqb_eq _ _) Hin) in E. discriminate.
Qed.

Lemma ID_KEYS_NoDup : NoDup ID_KEYS.
Proof.
  unfold ID_KEYS. simpl.
  repeat constructor; simpl; intros H;
    repeat (destruct H as [H|H]; [discriminate H|]); exact H.
Qed.

Lemma get_ids_merge (state_file : option pystr) (api_holograms : option pyval)
      (key : pystr) :
  In key ID_KEYS ->
  map fst (fst (get_hologram_ids py_str state_file api_holograms)) = ID_KEYS /\
  dict_get (fst (get_hologram_ids py_str state_file api_holograms)) key VNone
  = if truthy (dict_get (load_hologram_ids state_file) key VNone)
    then dict_get (load_hologram_ids state_file) key VNone
    else if truthy (dict_get (discover_hologram_ids api_holograms) key VNone)
         then dict_get (discover_hologram_ids api_holograms) key VNone
         else dict_get (load_hologram_ids state_file) key VNone.
Proof.
  intros Hkey. unfold get_hologram_ids. cbv zeta.
  destruct (load_clean state_file) as [Hk _].
  destruct (forallb truthy (dict_values (load_hologram_ids state_file))) eqn:Hall.
  - cbn [fst]. split; [exact Hk|].
    rewrite all_truthy_get; [reflexivity | exact Hall | now rewrite Hk].
  - destruct (@merge_fold (discover_hologram_ids api_holograms) key
                (map fst (load_hologram_ids state_file)))
      with (ids := load_hologram_ids state_file) as [Hkeys Hval].
    + rewrite Hk. exact ID_KEYS_NoDup.
    + auto.
    + destruct (existsb truthy _); cbn [fst]; (split; [congruence|]);
        rewrite Hval, Hk;
        (replace (existsb (fun k => str_eqb k key) ID_KEYS) with true;
         [reflexivity|]);
        symmetry; apply existsb_exists; exists key;
        (split; [exact Hkey | now apply str_eqb_eq]).
Qed.

(** X18. [get_hologram_ids] keeps what the state file knows and fills the
    gaps from discovery: the result has the three keys in their order, and
    under each key the value of the state file when that is non-empty,
    else the discovered value when that is non-empty, else the (empty)
    value of the state file. *)
Theorem get_hologram_ids_merge (state_file : option pystr)
        (api_holograms : option pyval) (key : pystr) :
  In key ID_KEYS ->
  map fst (fst (get_hologram_ids py_str state_file api_holograms)) = ID_KEYS /\
  dict_get (fst (get_hologram_ids py_str state_file api_holograms)) key VNone
  = if truthy (dict_get (load_hologram_ids state_file) key VNone)
    then dict_get (load_hologram_ids state_file) key VNone
    else if truthy (dict_get (discover_hologram_ids api_holograms) key VNone)
         then dict_get (discover_hologram_ids api_holograms) key VNone
         else dict_get (load_hologram_ids state_file) key VNone.
Proof. apply get_ids_merge. Qed.

(** X19. What [get_hologram_ids] saves is what a later run loads: when a
    run returns clean ids and saves them, loading the saved content gives
    these ids; and when all three are known, a later run returns them
    without saving again, whatever the API answers. *)
Theorem get_hologram_ids_settles (state_file : option pystr)
        (api_holograms : option pyval) (ids : pydict) (text : pystr) :
  get_hologram_ids py_str state_file api_holograms = (ids, Some text) ->
  clean_ids ids ->
  load_hologram_ids (Some text) = ids /\
  (forallb truthy (dict_values ids) = true ->
   forall later : option pyval,
     get_hologram_ids py_str (Some text) later = (ids, None)).
Proof.
  intros Hrun Hclean.
  assert (Htext : text = save_hologram_ids py_str ids).
  { revert Hrun. unfold get_hologram_ids. cbv zeta.
    destruct (forallb truthy (dict_values (load_hologram_ids state_file)));
      [discriminate|].
    destruct (existsb truthy _); [|discriminate].
    now intros [= <- <-]. }
  subst text. pose proof (save_load py_str Hclean) as Hload.
  split; [exact Hload|]. intros Hall later.
  unfold get_hologram_ids. cbv zeta. rewrite Hload, Hall. reflexivity.
Qed.

End GetIds.

Lemma get_hologram_ids_merge_witness :
  In (lit "MEMORY_ID") ID_KEYS /\
  dict_get (fst (get_hologram_ids Examples.no_str
                   (Some Examples.partial_state_file)
                   (Some Examples.hologram_listing)))
           (lit "MEMORY_ID") VNone = VStr (lit "h-mem") /\
  dict_get (fst (get_hologram_ids Examples.no_str
                   (Some Examples.partial_state_file)
                   (Some Examples.hologram_listing)))
           (lit "RESEARCH_ID") VNone = VStr (lit "h-old").
Proof.
  assert (K1 : In (lit "MEMORY_ID") ID_KEYS) by (vm_compute; tauto).
  assert (K2 : In (lit "RESEARCH_ID") ID_KEYS) by (vm_compute; tauto).
  split; [exact K1|]. split.
  - destruct (get_hologram_ids_merge Examples.no_str
                (Some Examples.partial_state_file)
                (Some Examples.hologram_listing) K1) as [_ ->].
    vm_compute. reflexivity.
  - destruct (get_hologram_ids_merge Examples.no_str
                (Some Examples.partial_state_file)
                (Some Examples.hologram_listing) K2) as [_ ->].
    vm_compute. reflexivity.
Defined.

Lemma get_hologram_ids_settles_witness :
  get_hologram_ids Examples.no_str None (Some Examples.hologram_listing)
  = (discover_hologram_ids (Some Examples.hologram_listing),
     Some (save_hologram_ids Examples.no_str
             (discover_hologram_ids (Some Examples.hologram_listing)))) /\
  forall later : option pyval,
    get_hologram_ids Examples.no_str
      (Some (save_hologram_ids Examples.no_str
               (discover_hologram_ids (Some Examples.hologram_listing))))
      later
    = (discover_hologram_ids (Some Examples.hologram_listing), None).
Proof.
  assert (Hrun : get_hologram_ids Examples.no_str None
                   (Some Examples.hologram_listing)
                 = (discover_hologram_ids (Some Examples.hologram_listing),
                    Some (save_hologram_ids Examples.no_str
                            (discover_hologram_ids
                               (Some Examples.hologram_listing)))))
    by (vm_compute; reflexivity).
  assert (Hclean : clean_ids
                     (discover_hologram_ids (Some Examples.hologram_listing))).
  { split; [vm_compute; reflexivity|].
    repeat constructor; eexists; (split; [reflexivity|]); split;
      solve [vm_compute; reflexivity | repeat constructor]. }
  split; [exact Hrun|].
  destruct (@get_hologram_ids_settles _ _ _ _ _ Hrun Hclean) as [_ H].
  apply H. vm_compute. reflexivity.
Defined.

(** ** The summary *)

Lemma StronglySorted_app_rel {A : Type} (rel : A -> A -> Prop)
      (l1 l2 : list A) :
  StronglySorted rel (l1 ++ l2) ->
  forall x y, In x l1 -> In y l2 -> rel x y.
Proof.
  induction l1 as [|a l1 IH]; simpl; intros H x y Hx Hy; [contradiction|].
  inversion H as [|? ? Hs Hf]; subst. destruct Hx as [<-|Hx].
  - rewrite Forall_forall in Hf. apply Hf, in_or_app. now right.
  - now apply IH.
Qed.

Lemma filter_perm_length {A : Type} (f : A -> bool) (l l' : list A) :
  Permutation l l' -> length (filter f l) = length (filter f l').
Proof.
  induction 1 as [|x l l' _ IH|x y l|l l' l'' _ IH1 _ IH2]; simpl.
  - reflexivity.
  - destruct (f x); simpl; congruence.
  - destruct (f x), (f y); reflexivity.
  - congruence.
Qed.

Lemma filter_all {A : Type} (f : A -> bool) (l : list A) :
  Forall (fun x => f x = true) l -> filter f l = l.
Proof.
  induction 1 as [|x l Hx _ IH]; simpl; [reflexivity|]. now rewrite Hx, IH.
Qed.

Lemma filter_none {A : Type} (f : A -> bool) (l : list A) :
  Forall (fun x => f x = false) l -> filter f l = [].
Proof.
  induction 1 as [|x l Hx _ IH]; simpl; [reflexivity|]. now rewrite Hx, IH.
Qed.

Lemma filter_length_le {A : Type} (f : A -> bool) (l : list A) :
  (length (filter f l) <= length l)%nat.
Proof.
  induction l as [|x l IH]; simpl; [lia|]. destruct (f x); simpl; lia.
Qed.

(** The first [n] of a list sorted most recent first. *)
Section Top.
Context {A K : Type} (ltb : K -> K -> bool) (key : A -> K) (dom : K -> Prop).

Hypothesis ltb_asym :
  forall a b, dom a -> dom b -> ltb a b = true -> ltb b a = false.
Hypothesis ltb_negtrans :
  forall a b c, dom a -> dom b -> dom c ->
    ltb a b = false -> ltb b c = false -> ltb a c = false.

Variable candidates : list A.
Hypothesis candidates_dom : Forall (fun y => dom (key y)) candidates.
Variable n : nat.

Local Abbreviation sorted := (sorted_desc ltb key candidates).

Lemma sorted_ordered :
  StronglySorted (fun x y : A => ltb (key x) (key y) = false) sorted.
Proof. now apply (@sorted_desc_ordered _ _ ltb key dom). Qed.

(** A candidate that is not among the first [n] is not above any of
    them. *)
Lemma top_above_rest (x y : A) :
  In x (firstn n sorted) -> In y candidates -> ~ In y (firstn n sorted) ->
  ltb (key x) (key y) = false.
Proof.
  intros Hx Hy Hny.
  apply (Permutation_in _ (sorted_desc_perm_any ltb key candidates)) in Hy.
  rewrite <- (firstn_skipn n sorted) in Hy. apply in_app_or in Hy.
  destruct Hy as [Hy|Hy]; [contradiction|].
  pose proof sorted_ordered as Hs. rewrite <- (firstn_skipn n sorted) in Hs.
  exact (@StronglySorted_app_rel _ _ _ _ Hs _ _ Hx Hy).
Qed.

(** Neither is a value that [n] candidates are not below. *)
Lemma top_above_covered (x : A) (k : K) (pre block post : list A) :
  In x (firstn n sorted) -> dom k ->
  candidates = pre ++ block ++ post -> length block = n ->
  Forall (fun z => ltb (key z) k = false) block ->
  ltb (key x) k = false.
Proof.
  intros Hx Hk Hc Hlen Hblock.
  destruct (ltb (key x) k) eqn:E; [exfalso | reflexivity].
  assert (Hdom : forall z, In z candidates -> dom (key z))
    by (apply Forall_forall; exact candidates_dom).
  assert (Hxc : In x candidates).
  { apply (Permutation_in _ (Permutation_sym
                               (sorted_desc_perm_any ltb key candidates))).
    rewrite <- (firstn_skipn n sorted). apply in_or_app. now left. }
  set (g := fun e : A => ltb (key x) (key e)).
  assert (Hlow : (n <= length (filter g candidates))%nat).
  { rewrite Hc, !filter_app, !length_app.
    rewrite (@filter_all _ g block); [lia|].
    rewrite Forall_forall in *. intros z Hz. unfold g.
    destruct (ltb (key x) (key z)) eqn:Ez; [reflexivity|].
    assert (Hzc : In z candidates)
      by (rewrite Hc; apply in_or_app; right; apply in_or_app; now left).
    rewrite (ltb_negtrans (Hdom x Hxc) (Hdom z Hzc) Hk Ez (Hblock z Hz)) in E.
    discriminate. }
  rewrite (@filter_perm_length _ g _ _ (sorted_desc_perm_any ltb key candidates))
    in Hlow.
  apply in_split in Hx. destruct Hx as [l1 [l2 Hx]].
  assert (Hl1 : (length l1 < n)%nat).
  { pose proof (firstn_le_length n sorted) as Hle.
    pose proof (length_firstn n sorted) as Hfl.
    rewrite Hx, length_app in Hfl. simpl in Hfl. lia. }
  pose proof sorted_ordered as Hs.
  rewrite <- (firstn_skipn n sorted), Hx, <- app_assoc in Hs.
  cbn [app] in Hs. apply StronglySorted_split in Hs. destruct Hs as [_ Hs].
  rewrite <- (firstn_skipn n sorted), Hx, <- app_assoc in Hlow.
  cbn [app] in Hlow. rewrite filter_app in Hlow. cbn [filter] in Hlow.
  assert (Hxx : g x = false).
  { unfold g. destruct (ltb (key x) (key x)) eqn:Exx; [|reflexivity].
    now rewrite (ltb_asym (Hdom x Hxc) (Hdom x Hxc) Exx) in Exx. }
  rewrite Hxx, (@filter_none _ g (l2 ++ skipn n sorted)) in Hlow by exact Hs.
  rewrite length_app in Hlow. simpl in Hlow.
  pose proof (filter_length_le g l1). lia.
Qed.
End Top.

Lemma summary_candidates_dom (active : list (section * list (pystr * pyval))) :
  (forall ni x, In ni active -> In x (snd ni) -> comparable (snd x)) ->
  Forall (fun y : summary_item => comparable (snd y))
         (summary_candidates active).
Proof.
  intros H. apply Forall_forall. intros y Hy. unfold summary_candidates in Hy.
  apply in_flat_map in Hy. destruct Hy as [ni [Hni Hy]].
  apply in_map_iff in Hy. destruct Hy as [x [<- Hx]].
  change (slice_to 3 (snd ni)) with (firstn 3 (snd ni)) in Hx.
  apply (H ni x Hni). rewrite <- (firstn_skipn 3 (snd ni)).
  apply in_or_app. now left.
Qed.

Lemma summary_most_recent (sections : sections_t) :
  (forall s x, In x (sections s) -> comparable (snd x)) ->
  (forall s, RecencyDesc (sections s)) ->
  forall x, In x (summary_top (active_of sections)) ->
  forall s y, In y (sections s) ->
    ~ In (section_name s, fst y, snd y) (summary_top (active_of sections)) ->
    py_lt (snd x) (snd y) = false.
Proof.
  intros Hcmp Hdesc x Hx s y Hy Hny.
  assert (Hact : In (s, sections s) (active_of sections)).
  { apply active_of_In. intros E. now rewrite E in Hy. }
  assert (Hdom : Forall (fun z : summary_item => comparable (snd z))
                        (summary_candidates (active_of sections))).
  { apply summary_candidates_dom. intros ni z Hni Hz.
    unfold active_of in Hni. apply filter_In in Hni. destruct Hni as [Hni _].
    apply in_map_iff in Hni. destruct Hni as [s' [<- _]].
    exact (Hcmp s' z Hz). }
  unfold summary_top in *.
  change (slice_to 3 ?l) with (firstn 3 l) in Hx, Hny.
  unfold py_lt in *.
  set (ltb := fun a b => xval_ltb (num_value a) (num_value b)) in *.
  assert (Hasym : forall a b, comparable a -> comparable b ->
                              ltb a b = true -> ltb b a = false)
    by (intros a b _ _; apply xval_ltb_asym).
  assert (Hneg : forall a b c, comparable a -> comparable b -> comparable c ->
                   ltb a b = false -> ltb b c = false -> ltb a c = false)
    by (intros a b c Ha Hb Hc; now apply xval_ltb_negtrans).
  rewrite <- (firstn_skipn 3 (sections s)) in Hy. apply in_app_or in Hy.
  apply in_split in Hact. destruct Hact as [before [behind Hact]].
  destruct Hy as [Hy|Hy].
  - apply (@top_above_rest _ _ ltb (fun z : summary_item => snd z) comparable
             Hasym Hneg _ Hdom 3%nat x (section_name s, fst y, snd y) Hx);
      [|exact Hny].
    unfold summary_candidates. apply in_flat_map.
    exists (s, sections s). split.
    + rewrite Hact. apply in_or_app. right. now left.
    + apply in_map_iff. exists y. split; [reflexivity | exact Hy].
  - assert (Hthree : length (firstn 3 (sections s)) = 3%nat).
    { rewrite length_firstn.
      destruct (Nat.le_gt_cases 3 (length (sections s))) as [H|H]; [lia|].
      rewrite skipn_all2 in Hy by lia. contradiction. }
    apply (@top_above_covered _ _ ltb (fun z : summary_item => snd z)
             comparable Hasym Hneg _ Hdom 3%nat x (snd y)
             (summary_candidates before)
             (map (fun z : pystr * pyval => (section_name s, fst z, snd z))
                  (firstn 3 (sections s)))
             (summary_candidates behind) Hx).
    + apply (Hcmp s). rewrite <- (firstn_skipn 3 (sections s)).
      apply in_or_app. now right.
    + unfold summary_candidates. rewrite Hact, flat_map_app. reflexivity.
    + now rewrite length_map.
    + apply Forall_forall. intros z Hz. apply in_map_iff in Hz.
      destruct Hz as [z0 [<- Hz0]]. cbn [snd].
      pose proof (Hdesc s) as Hs. unfold RecencyDesc in Hs.
      rewrite <- (firstn_skipn 3 (sections s)) in Hs.
      exact (@StronglySorted_app_rel _ _ _ _ Hs _ _ Hz0 Hy).
Qed.

Lemma summary_candidates_count
      (active : list (section * list (pystr * pyval))) :
  Z.min 3 (len (summary_candidates active)) = Z.min 3 (total_items_of active)
  /\ 0 <= total_items_of active.
Proof.
  induction active as [|ni rest IH];
    [split; [reflexivity | unfold total_items_of; simpl; lia]|].
  change (summary_candidates (ni :: rest))
    with (map (fun x : pystr * pyval => (section_name (fst ni), fst x, snd x))
              (firstn 3 (snd ni)) ++ summary_candidates rest).
  change (total_items_of (ni :: rest))
    with (len (snd ni) + total_items_of rest).
  unfold len in *. rewrite length_app, length_map, length_firstn.
  destruct IH as [IH1 IH2]. unfold summary_item in *. revert IH1 IH2.
  generalize (total_items_of rest).
  generalize (length (summary_candidates rest)).
  generalize (length (snd ni)). intros. lia.
Qed.

Lemma summary_count (active : list (section * list (pystr * pyval))) :
  len (summary_top active) = Z.min 3 (total_items_of active).
Proof.
  destruct (summary_candidates_count active) as [H _]. rewrite <- H.
  unfold summary_top, len.
  change (slice_to 3 ?l) with (firstn 3 l).
  rewrite length_firstn,
    <- (Permutation_length
          (sorted_desc_perm_any py_lt (fun x : summary_item => snd x)
                                (summary_candidates active))).
  lia.
Qed.

Lemma summary_origin (sections : sections_t) (x : summary_item) :
  In x (summary_top (active_of sections)) ->
  exists s y, In y (sections s) /\ x = (section_name s, fst y, snd y).
Proof.
  unfold summary_top. change (slice_to 3 ?l) with (firstn 3 l). intros Hx.
  assert (Hc : In x (summary_candidates (active_of sections))).
  { apply (Permutation_in _ (Permutation_sym
             (sorted_desc_perm_any py_lt (fun z : summary_item => snd z) _))).
    rewrite <- (firstn_skipn 3 (sorted_desc _ _ _)).
    apply in_or_app. left. exact Hx. }
  unfold summary_candidates in Hc. apply in_flat_map in Hc.
  destruct Hc as [ni [Hni Hc]]. apply in_map_iff in Hc.
  destruct Hc as [y [<- Hy]].
  unfold active_of in Hni. apply filter_In in Hni. destruct Hni as [Hni _].
  apply in_map_iff in Hni. destruct Hni as [s [<- _]].
  exists s, y. split; [|reflexivity].
  change (slice_to 3 ?l) with (firstn 3 l) in Hy. cbn [snd] in Hy.
  rewrite <- (firstn_skipn 3 (sections s)). apply in_or_app. now left.
Qed.

Section SummaryFacts.
Variable py_str : pyval -> pystr.

(** X20. The summary shows the most recent items: for traces with
    comparable recency scores, [print_summary] on the sections that
    [build_sections] returns prints the line of totals and one line for
    each of the three most recent items of all sections (fewer when there
    are fewer items); the items shown are items of their sections, and
    no item left out is more recent than an item shown. *)
Theorem print_summary_shows_most_recent (traces : list pydict) :
  (forall t, In t traces -> comparable (extract_recency t)) ->
  active_of (build_sections py_str traces) <> [] ->
  print_summary py_str (build_sections py_str traces)
  = summary_head py_str (active_of (build_sections py_str traces))
    :: map summary_line
           (summary_top (active_of (build_sections py_str traces)))
  /\ len (summary_top (active_of (build_sections py_str traces)))
     = Z.min 3 (total_items_of (active_of (build_sections py_str traces)))
  /\ forall x,
       In x (summary_top (active_of (build_sections py_str traces))) ->
       (exists s y, In y (build_sections py_str traces s)
                    /\ x = (section_name s, fst y, snd y))
       /\ forall s y,
            In y (build_sections py_str traces s) ->
            ~ In (section_name s, fst y, snd y)
                 (summary_top (active_of (build_sections py_str traces))) ->
            py_lt (snd x) (snd y) = false.
Proof.
  intros Hcmp Hact. split; [|split].
  - unfold print_summary. cbv zeta.
    destruct (active_of (build_sections py_str traces)); [congruence|].
    reflexivity.
  - apply summary_count.
  - intros x Hx. split; [now apply summary_origin|].
    apply summary_most_recent; [| now apply build_sections_desc | exact Hx].
    intros s y Hy. apply build_sections_origin in Hy.
    destruct Hy as [t [Ht [_ [_ ->]]]]. now apply Hcmp.
Qed.
End SummaryFacts.

Lemma print_summary_shows_most_recent_witness :
  (forall t, In t Examples.many_decisions -> comparable (extract_recency t))
  /\ len (summary_top (active_of (build_sections Examples.no_str
                                                 Examples.many_decisions)))
     = 3
  /\ print_summary Examples.no_str
       (build_sections Examples.no_str Examples.many_decisions)
     = summary_head Examples.no_str
         (active_of (build_sections Examples.no_str Examples.many_decisions))
       :: map lit ["  [Recent Decisions] Rotate the keys monthly";
                   "  [Recent Decisions] Ship on Friday";
                   "  [Recent Decisions] use postgres for storage"]%string.
Proof.
  assert (Hcmp : forall t, In t Examples.many_decisions ->
                           comparable (extract_recency t)).
  { intros t Ht. repeat (destruct Ht as [<-|Ht]; [vm_compute; discriminate|]).
    destruct Ht. }
  assert (Hact : active_of (build_sections Examples.no_str
                                           Examples.many_decisions) <> [])
    by (vm_compute; discriminate).
  destruct (@print_summary_shows_most_recent Examples.no_str
              Examples.many_decisions Hcmp Hact) as [Hlines [Hlen _]].
  split; [exact Hcmp|]. split.
  - rewrite Hlen. vm_compute. reflexivity.
  - rewrite Hlines. apply f_equal. vm_compute. reflexivity.
Defined.
